(** * ndmg: output naming (ndmg/utils/bids_utils.py) and the functional
      pipeline driver (ndmg/scripts/ndmg_func_pipeline.py)

    A shallow embedding of the Python 2 sources.  Python [str] values are
    byte strings and are modelled by [string] (whose characters are the
    8-bit [ascii]); [None]-or-value fields are [option]s; raising code
    returns in a sum type; calls into modules that are not part of the
    sources are answered by an oracle and recorded in a trace. *)

From Stdlib Require Import String Ascii List Bool Arith Lia.
Import ListNotations.

Local Open Scope list_scope.
Local Open Scope string_scope.

Set Implicit Arguments.
Set Warnings "-register-all".

(* ================================================================== *)
(** ** Python exceptions and results *)

(** What [sys.exit] was given: nothing, an integer or another object
    (here always a message string). *)
Inductive exit_arg :=
| ExitNone
| ExitInt (n : nat)
| ExitMsg (msg : string).

(** The exception classes that occur.  The first group derives from
    [Exception]; [SystemExit], [KeyboardInterrupt] and [GeneratorExit]
    derive from [BaseException] only. *)
Inductive exn :=
| NameError (name : string)
| AttributeError (msg : string)
| KeyError (key : string)
| IndexError
| TypeError (msg : string)
| StageError (msg : string)
| SystemExit (code : exit_arg)
| KeyboardInterrupt
| GeneratorExit.

(** [isinstance(e, Exception)]. *)
Definition isinstance_Exception (e : exn) : bool :=
  match e with
  | SystemExit _ | KeyboardInterrupt | GeneratorExit => false
  | _ => true
  end.

(** A computation that either raises or returns. *)
Definition result (A : Type) : Type := (exn + A)%type.

Definition ret {A} (a : A) : result A := inr a.
Definition raise {A} (e : exn) : result A := inl e.

(* ================================================================== *)
(** ** [str] methods and [os.path] *)

Definition is_char (c : ascii) : ascii -> bool := Ascii.eqb c.

Definition newline : ascii := "010"%char.

(** [c in s] for a one-character [c]. *)
Fixpoint has_char (c : ascii) (s : string) : bool :=
  match s with
  | EmptyString => false
  | String d s' => if Ascii.eqb c d then true else has_char c s'
  end.

(** [s.startswith(p)], returning what follows [p]. *)
Fixpoint strip_prefix (p s : string) : option string :=
  match p, s with
  | EmptyString, _ => Some s
  | String a p', String b s' =>
      if Ascii.eqb a b then strip_prefix p' s' else None
  | String _ _, EmptyString => None
  end.

Definition startswith (p s : string) : bool :=
  match strip_prefix p s with Some _ => true | None => false end.

(** [s.endswith(c)] for a one-character [c]. *)
Fixpoint endswith_char (c : ascii) (s : string) : bool :=
  match s with
  | EmptyString => false
  | String d EmptyString => Ascii.eqb c d
  | String _ s' => endswith_char c s'
  end.

(** [p in s]: does [p] occur in [s]? *)
Fixpoint occurs (p s : string) : bool :=
  if startswith p s then true
  else match s with
       | EmptyString => false
       | String _ s' => occurs p s'
       end.

(** The pieces of [s] between the characters satisfying [sep]; never
    empty.  [s.split(c)] is [split_on (is_char c) s]. *)
Fixpoint split_on (sep : ascii -> bool) (s : string) : list string :=
  match s with
  | EmptyString => [EmptyString]
  | String c s' =>
      if sep c then EmptyString :: split_on sep s'
      else match split_on sep s' with
           | h :: t => String c h :: t
           | [] => [String c EmptyString]
           end
  end.

(** [l[0]] of a list of strings that is known to be non-empty. *)
Definition item0 (l : list string) : string := hd EmptyString l.

(** [sep.join(l)]. *)
Fixpoint str_join (sep : string) (l : list string) : string :=
  match l with
  | [] => EmptyString
  | [x] => x
  | x :: rest => x ++ sep ++ str_join sep rest
  end.

(** ["{}".format(x)] for a field that is [None] or a string. *)
Definition format_opt (x : option string) : string :=
  match x with
  | Some s => s
  | None => "None"
  end.

Module os_path.

(** posixpath.basename: [p[p.rfind('/') + 1:]]. *)
Fixpoint basename (p : string) : string :=
  match p with
  | EmptyString => EmptyString
  | String c p' =>
      if has_char "/" p' then basename p'
      else if Ascii.eqb c "/" then p' else p
  end.

(** One round of the loop of posixpath.join. *)
Definition join2 (path b : string) : string :=
  if startswith "/" b then b
  else if String.eqb path "" || endswith_char "/" path then path ++ b
  else path ++ "/" ++ b.

(** posixpath.join, called on the unpacked list [l]: with an empty
    [l] the call has no first argument and raises TypeError. *)
Definition join (l : list string) : result string :=
  match l with
  | [] => raise (TypeError "join() takes at least 1 argument (0 given)")
  | a :: p => ret (fold_left join2 p a)
  end.

End os_path.

(* ================================================================== *)
(** ** The fragment of [re] that the sources use *)

Module re.

(** Pattern syntax: literals, groups, the two look-aheads, [.*], [.*?],
    character sets and concatenation. *)
Inductive pattern :=
| Lit (s : string)
| Group (r : pattern)
| Ahead (r : pattern)
| NotAhead (r : pattern)
| AnyStar
| AnyStarLazy
| OneOf (cs : list ascii)
| Cat (r1 r2 : pattern).

(** [.] matches every character but a newline. *)
Definition dot (c : ascii) : bool := negb (Ascii.eqb c newline).

Definition in_set (c : ascii) (cs : list ascii) : bool :=
  existsb (Ascii.eqb c) cs.

Section Backtracking.
Variable A : Type.
Variable k : string -> option A.

(** [.*] followed by [k]: the longest run first. *)
Fixpoint greedy (s : string) : option A :=
  match s with
  | EmptyString => k s
  | String c s' =>
      if dot c
      then match greedy s' with
           | Some a => Some a
           | None => k s
           end
      else k s
  end.

(** [.*?] followed by [k]: the shortest run first. *)
Fixpoint lazy (s : string) : option A :=
  match k s with
  | Some a => Some a
  | None =>
      match s with
      | EmptyString => None
      | String c s' => if dot c then lazy s' else None
      end
  end.
End Backtracking.

(** The backtracking matcher, in continuation-passing style: match [r]
    at the start of [s], then run [k] on what is left; the first
    success in the engine's order of alternatives wins. *)
Fixpoint run (r : pattern) (A : Type) (s : string)
         (k : string -> option A) {struct r} : option A :=
  match r with
  | Lit l =>
      match strip_prefix l s with
      | Some s' => k s'
      | None => None
      end
  | Group r1 => run r1 s k
  | Ahead r1 =>
      match run r1 s (fun _ => Some tt) with
      | Some _ => k s
      | None => None
      end
  | NotAhead r1 =>
      match run r1 s (fun _ => Some tt) with
      | Some _ => None
      | None => k s
      end
  | AnyStar => greedy k s
  | AnyStarLazy => lazy k s
  | OneOf cs =>
      match s with
      | String c s' => if in_set c cs then k s' else None
      | EmptyString => None
      end
  | Cat r1 r2 => run r1 s (fun s' => run r2 s' k)
  end.

(** The first [n] characters of [s]. *)
Fixpoint take (n : nat) (s : string) : string :=
  match n, s with
  | S n', String c s' => String c (take n' s')
  | _, _ => EmptyString
  end.

(** A match object; [group()] is the text matched. *)
Record match_object := { group : string }.

(** Match [r] at the start of [s] only: what is left after the match. *)
Definition match_rest (r : pattern) (s : string) : option string :=
  run r s (fun rest => Some rest).

Definition match_here (r : pattern) (s : string) : option match_object :=
  match match_rest r s with
  | Some rest =>
      Some {| group := take (String.length s - String.length rest) s |}
  | None => None
  end.

(** [re.search(r, s)]: the match at the leftmost position that has
    one, or [None]. *)
Fixpoint search (r : pattern) (s : string) : option match_object :=
  match match_here r s with
  | Some m => Some m
  | None =>
      match s with
      | EmptyString => None
      | String _ s' => search r s'
      end
  end.

(** [re.split(r, s)]: cut [s] at the successive non-empty matches of
    [r]; an empty match does not split.  [fuel] bounds the number of
    characters consumed. *)
Fixpoint split_fuel (fuel : nat) (r : pattern) (s : string) : list string :=
  match fuel with
  | O => [s]
  | S fuel' =>
      match s with
      | EmptyString => [EmptyString]
      | String c s' =>
          match match_rest r s with
          | Some rest =>
              if Nat.ltb (String.length rest) (String.length s)
              then EmptyString :: split_fuel fuel' r rest
              else match split_fuel fuel' r s' with
                   | h :: t => String c h :: t
                   | [] => [String c EmptyString]
                   end
          | None =>
              match split_fuel fuel' r s' with
              | h :: t => String c h :: t
              | [] => [String c EmptyString]
              end
          end
      end
  end.

Definition split (r : pattern) (s : string) : list string :=
  split_fuel (S (String.length s)) r s.

End re.

(* ================================================================== *)
(** ** Dictionaries *)

(** A nested dictionary with string keys, as [name_resource.dirs] is:
    a value is a leaf or again a dictionary.  The items are kept in the
    order in which the keys were first stored; CPython 2 iterates a
    dictionary in an order fixed by the keys and their history, and no
    property below depends on which order that is. *)
Inductive pytree (A : Type) :=
| Leaf (a : A)
| Dict (items : list (string * pytree A)).

Arguments Leaf {A} a.
Arguments Dict {A} items.

Section Dictionaries.
Variable V : Type.

(** [d[k] = v]: replace the value of an existing key in place, or add
    the key. *)
Fixpoint dict_set (k : string) (v : V) (d : list (string * V))
  : list (string * V) :=
  match d with
  | [] => [(k, v)]
  | (k', v') :: rest =>
      if String.eqb k k' then (k, v) :: rest
      else (k', v') :: dict_set k v rest
  end.

(** [d[k]], raising KeyError for a missing key. *)
Fixpoint dict_get (k : string) (d : list (string * V)) : result V :=
  match d with
  | [] => raise (KeyError k)
  | (k', v') :: rest =>
      if String.eqb k k' then ret v' else dict_get k rest
  end.
End Dictionaries.

(** [x in l] for a list of strings. *)
Definition in_list (x : string) (l : list string) : bool :=
  existsb (String.eqb x) l.

(** Sequencing of raising computations. *)
Definition bind {A B} (m : result A) (f : A -> result B) : result B :=
  match m with
  | inl e => inl e
  | inr a => f a
  end.

(** Subscripting a value of [dirs]: only a dictionary has items. *)
Definition getitem {A} (t : pytree A) (k : string) : result (pytree A) :=
  match t with
  | Dict items => dict_get k items
  | Leaf _ => raise (TypeError "string indices must be integers, not str")
  end.

(* ================================================================== *)
(** ** ndmg/utils/bids_utils.py *)

(** [flatten(current, result)]: [result] is one list object that every
    recursive call appends to and that is returned in the end; here the
    contents of that object are passed along. *)
Fixpoint flatten (A : Type) (current : pytree A) (result : list A) : list A :=
  match current with
  | Dict items =>
      (fix each (l : list (string * pytree A)) (result : list A) : list A :=
         match l with
         | [] => result
         | (_, v) :: l' => each l' (flatten v result)
         end) items result
  | Leaf a => result ++ [a]
  end.

(** The four patterns of the constructor,
    [(key)(?!.*key).*?(?=[_])] for the keys sub-, ses-, run-, res-. *)
Definition token_pattern (key : string) : re.pattern :=
  re.Cat (re.Group (re.Lit key))
    (re.Cat (re.NotAhead (re.Cat re.AnyStar (re.Lit key)))
       (re.Cat re.AnyStarLazy (re.Ahead (re.OneOf ["_"%char])))).

(** The pattern [[._]] of [re.split]. *)
Definition dot_or_underscore : re.pattern := re.OneOf ["."%char; "_"%char].

(** [m.group()] where [m] may be [None]. *)
Definition group_of (m : option re.match_object) : result string :=
  match m with
  | Some m => ret (re.group m)
  | None => raise (AttributeError "'NoneType' object has no attribute 'group'")
  end.

(** [if m: m = m.group()]: a match object is always true. *)
Definition group_if_matched (m : option re.match_object) : option string :=
  match m with
  | Some m => Some (re.group m)
  | None => None
  end.

(** Truth value of a field that is [None] or a string. *)
Definition truthy (x : option string) : bool :=
  match x with
  | Some s => negb (String.eqb s "")
  | None => false
  end.

(** The attributes of a [name_resource] object; [dirs] exists only once
    [add_dirs] has run. *)
Record name_resource := {
  __subi__ : string;
  __anati__ : string;
  __sub__ : string;
  __ses__ : option string;
  __run__ : option string;
  __temp__ : string;
  __space__ : string;
  __res__ : option string;
  __basepath__ : string;
  __outdir__ : string;
  dirs : option (list (string * pytree string))
}.

(** [_get_outdir], which reads [__basepath__], [__sub__] and [__ses__]. *)
Definition _get_outdir (basepath sub : string) (ses : option string)
  : result string :=
  let olist := [basepath] in
  let olist := (olist ++ [sub])%list in
  let olist := if truthy ses
               then (olist ++ [format_opt ses])%list
               else olist in
  os_path.join olist.

(** [name_resource.__init__(modf, t1wf, tempf, opath)]. *)
Definition __init__ (modf t1wf tempf opath : string) : result name_resource :=
  let subi := item0 (split_on (is_char ".") (os_path.basename modf)) in
  let anati := item0 (split_on (is_char ".") (os_path.basename t1wf)) in
  bind (group_of (re.search (token_pattern "sub-") modf)) (fun sub =>
  let ses := group_if_matched (re.search (token_pattern "ses-") modf) in
  let run := group_if_matched (re.search (token_pattern "run-") modf) in
  let temp := item0 (split_on (is_char ".") (os_path.basename tempf)) in
  let space := item0 (re.split dot_or_underscore temp) in
  let res := group_if_matched (re.search (token_pattern "res-") tempf) in
  bind (_get_outdir opath sub ses) (fun outdir =>
  ret {| __subi__ := subi; __anati__ := anati; __sub__ := sub;
         __ses__ := ses; __run__ := run; __temp__ := temp;
         __space__ := space; __res__ := res; __basepath__ := opath;
         __outdir__ := outdir; dirs := None |})).

Definition get_outdir (self : name_resource) : string := __outdir__ self.

(** [get_label(label)]. *)
Definition get_label (label : string) : string :=
  "label-" ++ item0 (re.split dot_or_underscore (os_path.basename label)).

(** [get_template_space()]. *)
Definition get_template_space (self : name_resource) : string :=
  "space-" ++ __space__ self ++ "_res-" ++ format_opt (__res__ self).

Definition get_mod_source (self : name_resource) : string := __subi__ self.
Definition get_anat_source (self : name_resource) : string := __anati__ self.

(** [name_derivative(folder, derivative)]: [folder] is a value taken from
    [dirs].  When it is a dictionary, posixpath.join returns a
    [derivative] that starts with a slash as it is (the path becomes
    [derivative] before the dictionary is used), and otherwise asks the
    dictionary for [endswith]. *)
Definition name_derivative (folder : pytree string) (derivative : string)
  : result string :=
  match folder with
  | Leaf f => os_path.join [f; derivative]
  | Dict _ =>
      if startswith "/" derivative then ret derivative
      else raise (AttributeError "'dict' object has no attribute 'endswith'")
  end.

(** [labels] is one label file or a list of them. *)
Inductive labels_arg :=
| OneLabel (label : string)
| LabelList (labels : list string).

(** [if not isinstance(labels, list): labels = [labels]]. *)
Definition as_label_list (labels : labels_arg) : list string :=
  match labels with
  | OneLabel l => [l]
  | LabelList l => l
  end.

(** The value of [os.path.join] on a first argument and more. *)
Definition join_from (a : string) (p : list string) : string :=
  fold_left os_path.join2 p a.

(** The inner loop of [add_dirs]: the entries of one label-level
    dictionary. *)
Definition label_level (newdir : string) (labels : list string)
  : list (string * pytree string) :=
  fold_left
    (fun d label =>
       let labname := get_label label in
       dict_set labname (Leaf (join_from newdir [labname])) d)
    labels [].

(** The loop over [paths.iteritems()] for one directory type. *)
Definition add_paths (outdir addstr : string) (paths : list (string * string))
           (labels label_dirs : list string)
           (d : list (string * pytree string))
  : list (string * pytree string) :=
  fold_left
    (fun d (item : string * string) =>
       let (kwd, path) := item in
       let newdir := join_from outdir [addstr; path] in
       if in_list kwd label_dirs
       then dict_set kwd (Dict (label_level newdir labels)) d
       else dict_set kwd (Leaf newdir) d)
    paths d.

(** The loop over [dirtypes]: the dictionary that [add_dirs] leaves in
    [self.dirs].  An inner dictionary is filled in place after it was
    stored, which leaves it at the position where it was stored. *)
Definition build_dirs (outdir : string) (paths : list (string * string))
           (labels label_dirs : list string)
  : list (string * pytree string) :=
  fold_left
    (fun dirs dirt =>
       let addstr := if String.eqb dirt "output" then "" else dirt in
       let inner := dict_set "base" (Leaf (join_from outdir [addstr])) [] in
       dict_set dirt
         (Dict (add_paths outdir addstr paths labels label_dirs inner)) dirs)
    ["output"; "tmp"; "qa"] [].

Definition set_dirs (self : name_resource)
           (d : list (string * pytree string)) : name_resource :=
  {| __subi__ := __subi__ self; __anati__ := __anati__ self;
     __sub__ := __sub__ self; __ses__ := __ses__ self;
     __run__ := __run__ self; __temp__ := __temp__ self;
     __space__ := __space__ self; __res__ := __res__ self;
     __basepath__ := __basepath__ self; __outdir__ := __outdir__ self;
     dirs := Some d |}.

(** [self.dirs], an attribute that exists once [add_dirs] has run. *)
Definition get_dirs (self : name_resource)
  : result (list (string * pytree string)) :=
  match dirs self with
  | Some d => ret d
  | None => raise (AttributeError "name_resource instance has no attribute 'dirs'")
  end.

(** [self[key]]: the class defines no [__getitem__]. *)
Definition instance_getitem (self : name_resource) (key : string)
  : result (pytree string) :=
  raise (AttributeError "name_resource instance has no attribute '__getitem__'").

(* ================================================================== *)
(** ** Calls into modules outside the sources, and the trace *)

(** The operations of ndmg.utils, ndmg.preproc, ndmg.epi_register,
    ndmg.nuis, ndmg.timeseries, ndmg.graph and ndmg.stats.qa_func that
    the sources call, in the order of their first use. *)
Inductive call :=
| execute_cmd
| qa_func_init
| preproc_func_init
| preproc_func_preprocess
| func_preproc_qa
| preproc_anat_init
| preproc_anat_preprocess
| anat_preproc_qa
| epi_register_init
| self_align
| self_reg_qa
| template_align
| temp_reg_qa
| get_mc_params
| nuis_init
| nuis_correct
| nuisance_qa
| timeseries_init
| voxel_timeseries
| voxel_ts_qa
| roi_timeseries
| get_ts_shape
| graph_init
| cor_graph
| graph_summary
| save_graph
| roi_ts_qa
| qa_save.

(** What a run does that can be observed: text printed and external
    operations called, each with the paths and dictionaries given. *)
Inductive event :=
| Printed (text : string)
| Called (c : call) (args : list (pytree string)).

(** An object that a module-level name can be bound to. *)
Inductive pyobj :=
| PyModule (name : string)
| PyStrList (items : list string).

(** Everything a run depends on that the sources do not fix. *)
Record world := {
  (** what an external operation does after the given history: [None]
      when it returns, or the exception it raises *)
  answer : list event -> call -> list (pytree string) -> option exn;
  (** the names that [from ndmg.stats.qa_reg import *] binds *)
  star_import : string -> option pyobj;
  (** [os.path.isfile] *)
  isfile : string -> bool;
  (** the text of [datetime.now() - startTime] *)
  elapsed : list event -> string
}.

(** A run: from the trace so far to the trace after it, with the value
    returned or the exception raised. *)
Definition M (A : Type) : Type := list event -> list event * result A.

Definition mret {A} (a : A) : M A := fun tr => (tr, inr a).

Definition mbind {A B} (m : M A) (f : A -> M B) : M B :=
  fun tr =>
    match m tr with
    | (tr', inr a) => f a tr'
    | (tr', inl e) => (tr', inl e)
    end.

Definition lift {A} (r : result A) : M A := fun tr => (tr, r).

Definition print (text : string) : M unit :=
  fun tr => ((tr ++ [Printed text])%list, inr tt).

Definition extern (w : world) (c : call) (args : list (pytree string))
  : M unit :=
  fun tr =>
    ((tr ++ [Called c args])%list,
     match answer w tr c args with
     | Some e => inl e
     | None => inr tt
     end).

Notation "x <- m ;; k" := (mbind m (fun x => k))
  (at level 61, m at next level, right associativity).
Notation "m ;;; k" := (mbind m (fun _ => k))
  (at level 61, right associativity).

(** A loop with a body that can raise. *)
Fixpoint for_each {A} (l : list A) (body : A -> M unit) : M unit :=
  match l with
  | [] => mret tt
  | x :: l' => body x ;;; for_each l' body
  end.

(** A list comprehension whose element expression can raise. *)
Fixpoint comprehension {A B} (f : A -> result B) (l : list A)
  : result (list B) :=
  match l with
  | [] => ret []
  | x :: l' =>
      bind (f x) (fun y => bind (comprehension f l') (fun ys => ret (y :: ys)))
  end.

(** [enumerate(l)]. *)
Fixpoint enumerate_from {A} (i : nat) (l : list A) : list (nat * A) :=
  match l with
  | [] => []
  | x :: l' => (i, x) :: enumerate_from (S i) l'
  end.

(** [l[i]]. *)
Definition index {A} (l : list A) (i : nat) : result A :=
  match nth_error l i with
  | Some x => ret x
  | None => raise IndexError
  end.

(** A module-level name that no statement of the script binds: only the
    star import can have bound it. *)
Definition lookup_global (w : world) (name : string) : result pyobj :=
  match star_import w name with
  | Some o => ret o
  | None => raise (NameError name)
  end.

(** [add_dirs(paths, labels, label_dirs)]: the object with [dirs] set,
    after the mkdir command was run. *)
Definition add_dirs (w : world) (self : name_resource)
           (paths : list (string * string)) (labels : labels_arg)
           (label_dirs : list string) : M name_resource :=
  let labels := as_label_list labels in
  let self := set_dirs self (build_dirs (get_outdir self) paths labels label_dirs) in
  d <- lift (get_dirs self) ;;
  let newdirs := flatten (Dict d) [] in
  let cmd := "mkdir -p " ++ str_join " " newdirs in
  extern w execute_cmd [Leaf cmd] ;;;
  mret self.

(* ================================================================== *)
(** ** ndmg/scripts/ndmg_func_pipeline.py *)

(** ["{}".format(v)] for a value of [dirs]: a path as it is, a
    dictionary by its repr (written without escapes). *)
Fixpoint py_str (v : pytree string) : string :=
  match v with
  | Leaf s => s
  | Dict items =>
      "{" ++ str_join ", "
        ((fix each (l : list (string * pytree string)) : list string :=
            match l with
            | [] => []
            | (k, Leaf s) :: l' => ("'" ++ k ++ "': '" ++ s ++ "'") :: each l'
            | (k, x) :: l' => ("'" ++ k ++ "': " ++ py_str x) :: each l'
            end) items) ++ "}"
  end.

(** The literals of the worker. *)
Definition paths : list (string * string) :=
  [("prep_f", "func/preproc"); ("prep_a", "anat/preproc");
   ("reg_f", "func/registered"); ("reg_a", "anat/registered");
   ("nuis_f", "func/clean"); ("nuis_a", "func/clean");
   ("ts_voxel", "func/voxel-timeseries"); ("ts_roi", "func/roi-timeseries");
   ("conn", "func/connectomes")].

Definition opt_dirs : list string :=
  ["prep_f"; "prep_a"; "reg_f"; "reg_a"; "nuis_f"].
Definition clean_dirs : list string := ["nuis_a"].
Definition label_dirs : list string := ["ts_roi"; "conn"].

(** [d[a][b]] on [namer.dirs]. *)
Definition dirs2 (d : list (string * pytree string)) (a b : string)
  : result (pytree string) :=
  bind (dict_get a d) (fun x => getitem x b).

(** The body of the ROI-timeseries loop. *)
Definition roi_step (w : world) (labels roi_ts connectomes : list string)
           (nuis_func aligned_func aligned_t1w fmt : string)
           (item : nat * string) : M unit :=
  let (idx, label) := item in
  print ("Extracting ROI timeseries for " ++ label ++ " parcellation...") ;;;
  extern w timeseries_init [] ;;;
  lab <- lift (index labels idx) ;;
  roi <- lift (index roi_ts idx) ;;
  extern w roi_timeseries [Leaf nuis_func; Leaf lab; Leaf roi] ;;;
  extern w get_ts_shape [] ;;;
  lab <- lift (index labels idx) ;;
  extern w graph_init [Leaf lab] ;;;
  extern w cor_graph [] ;;;
  extern w graph_summary [] ;;;
  conn <- lift (index connectomes idx) ;;
  extern w save_graph [Leaf conn; Leaf fmt] ;;;
  lab <- lift (index labels idx) ;;
  extern w roi_ts_qa [Leaf aligned_func; Leaf aligned_t1w; Leaf lab].

(** [for idx, label in enumerate(label_name)]: [label_name] is no local
    of the worker and no name that the script binds. *)
Definition roi_loop (w : world) (labels roi_ts connectomes : list string)
           (nuis_func aligned_func aligned_t1w fmt : string) : M unit :=
  label_name <- lift (lookup_global w "label_name") ;;
  match label_name with
  | PyStrList names =>
      for_each (enumerate_from 0 names)
        (roi_step w labels roi_ts connectomes
           nuis_func aligned_func aligned_t1w fmt)
  | PyModule _ => lift (raise (TypeError "'module' object is not iterable"))
  end.

(** What follows the loop: saving the statistics and the cleanup. *)
Definition finish (w : world) (namer : name_resource) (qc_stats : string)
           (clean : bool) : M unit :=
  extern w qa_save [Leaf qc_stats] ;;;
  (fun tr => print ("Execution took: " ++ elapsed w tr) tr) ;;;
  tmp <- lift (instance_getitem namer "tmp") ;;
  base <- lift (getitem tmp "base") ;;
  let cmd := "rm -rf " ++ py_str base in
  cmd <- (if clean
          then
            deldirs <- lift (comprehension
                               (fun dirn =>
                                  bind (instance_getitem namer "output")
                                    (fun output =>
                                       bind (getitem output dirn)
                                         (fun v => ret (py_str v))))
                               (opt_dirs ++ clean_dirs)%list) ;;
            mret (cmd ++ " " ++ str_join " " deldirs)
          else mret cmd) ;;
  extern w execute_cmd [Leaf cmd] ;;;
  print "Complete!".

(** The local variables of the worker that are still used once the
    voxelwise timeseries has been extracted. *)
Record locals := {
  namer_of : name_resource;
  qc_stats_of : string;
  aligned_func_of : string;
  aligned_t1w_of : string;
  nuis_func_of : string;
  labels_of : list string;
  roi_ts_of : list string;
  connectomes_of : list string
}.

(** The worker up to the ROI-timeseries loop: naming, preprocessing,
    alignment, nuisance correction and the voxelwise timeseries. *)
Definition stages (w : world)
           (func t1w atlas atlas_brain atlas_mask lv_mask : string)
           (labels : labels_arg) (outdir : string)
           (clean : bool) (stc : option string) (fmt : string) : M locals :=
  namer <- lift (__init__ func t1w atlas outdir) ;;
  namer <- add_dirs w namer paths labels label_dirs ;;
  d <- lift (get_dirs namer) ;;
  qa_base <- lift (dirs2 d "qa" "base") ;;
  let qc_stats :=
    py_str qa_base ++ "/" ++ get_mod_source namer ++ "_stats.pkl" in
  let reg_fname := get_mod_source namer ++ "_" ++ get_template_space namer in
  let reg_aname := get_anat_source namer ++ "_" ++ get_template_space namer in
  let derivative a b name :=
    lift (bind (dirs2 d a b) (fun folder => name_derivative folder name)) in
  preproc_func <-
    derivative "output" "prep_f" (get_mod_source namer ++ "_preproc.nii.gz") ;;
  motion_func <-
    derivative "tmp" "prep_f"
      (get_mod_source namer ++ "_variant-mc_preproc.nii.gz") ;;
  preproc_t1w_brain <-
    derivative "output" "prep_a"
      (get_anat_source namer ++ "_preproc_variant-brain.nii.gz") ;;
  aligned_func <-
    derivative "output" "reg_f" (reg_fname ++ "_registered.nii.gz") ;;
  aligned_t1w <-
    derivative "output" "reg_a" (reg_aname ++ "_registered.nii.gz") ;;
  nuis_func <- derivative "output" "nuis_f" (reg_fname ++ "_clean.nii.gz") ;;
  voxel_ts <-
    derivative "output" "ts_voxel" (reg_fname ++ "_timeseries.nii.gz") ;;
  print "This pipeline will produce the following derivatives..." ;;;
  (if negb clean
   then
     print ("fMRI volumes preprocessed: " ++ preproc_func) ;;;
     print ("T1w volume preprocessed: " ++ preproc_t1w_brain) ;;;
     print ("fMRI volume registered to atlas: " ++ aligned_func) ;;;
     print ("fMRI volumes preprocessed: " ++ preproc_func)
   else mret tt) ;;;
  print ("Voxel timecourse in atlas space: " ++ voxel_ts) ;;;
  let labels := as_label_list labels in
  connectomes <-
    lift (comprehension
            (fun lab =>
               bind (dirs2 d "output" "conn") (fun conn =>
               bind (getitem conn (get_label lab)) (fun folder =>
               name_derivative folder
                 (get_mod_source namer ++ "_" ++ get_label lab
                    ++ "_measure-correlation." ++ fmt))))
            labels) ;;
  roi_ts <-
    lift (comprehension
            (fun lab =>
               bind (dirs2 d "output" "ts_roi") (fun ts_roi =>
               bind (getitem ts_roi (get_label lab)) (fun folder =>
               name_derivative folder
                 (get_mod_source namer ++ "_" ++ get_label lab
                    ++ "_variant-mean_timeseries.npz"))))
            labels) ;;
  print ("ROI timeseries downsampled to given labels: "
           ++ str_join ", " roi_ts) ;;;
  print ("Connectomes downsampled to given labels: "
           ++ str_join ", " connectomes) ;;;
  extern w qa_func_init [] ;;;
  print "Preprocessing volumes..." ;;;
  tmp_prep_f <- lift (dirs2 d "tmp" "prep_f") ;;
  extern w preproc_func_init
    [Leaf func; Leaf preproc_func; Leaf motion_func; tmp_prep_f] ;;;
  extern w preproc_func_preprocess [Leaf (format_opt stc)] ;;;
  extern w func_preproc_qa [] ;;;
  tmp_prep_a <- lift (dirs2 d "tmp" "prep_a") ;;
  extern w preproc_anat_init [Leaf t1w; Leaf preproc_t1w_brain; tmp_prep_a] ;;;
  extern w preproc_anat_preprocess [] ;;;
  extern w anat_preproc_qa [] ;;;
  print "Aligning volumes..." ;;;
  tmp <- lift (dict_get "tmp" d) ;;
  extern w epi_register_init
    [Leaf preproc_func; Leaf t1w; Leaf preproc_t1w_brain; Leaf atlas;
     Leaf atlas_brain; Leaf atlas_mask; Leaf aligned_func; Leaf aligned_t1w;
     tmp] ;;;
  extern w self_align [] ;;;
  extern w self_reg_qa [] ;;;
  extern w template_align [] ;;;
  extern w temp_reg_qa [] ;;;
  print "Correcting Nuisance Variables..." ;;;
  tmp <- lift (dict_get "tmp" d) ;;
  extern w get_mc_params [] ;;;
  extern w nuis_init
    [Leaf aligned_func; Leaf aligned_t1w; Leaf nuis_func; tmp;
     Leaf lv_mask] ;;;
  extern w nuis_correct [] ;;;
  extern w nuisance_qa [] ;;;
  print "Extracting Voxelwise Timeseries..." ;;;
  extern w timeseries_init [] ;;;
  extern w voxel_timeseries [Leaf nuis_func; Leaf atlas_mask; Leaf voxel_ts] ;;;
  extern w voxel_ts_qa [Leaf nuis_func; Leaf atlas_mask] ;;;
  mret {| namer_of := namer; qc_stats_of := qc_stats;
          aligned_func_of := aligned_func; aligned_t1w_of := aligned_t1w;
          nuis_func_of := nuis_func; labels_of := labels;
          roi_ts_of := roi_ts; connectomes_of := connectomes |}.

(** [ndmg_func_worker]: the stages, the ROI-timeseries loop, the saving
    of the statistics and the cleanup. *)
Definition ndmg_func_worker (w : world)
           (func t1w atlas atlas_brain atlas_mask lv_mask : string)
           (labels : labels_arg) (outdir : string)
           (clean : bool) (stc : option string) (fmt : string) : M unit :=
  v <- stages w func t1w atlas atlas_brain atlas_mask lv_mask
         labels outdir clean stc fmt ;;
  roi_loop w (labels_of v) (roi_ts_of v) (connectomes_of v)
    (nuis_func_of v) (aligned_func_of v) (aligned_t1w_of v) fmt ;;;
  finish w (namer_of v) (qc_stats_of v) clean.

(** One line for the exception, as the last line of a traceback. *)
Definition exn_line (e : exn) : string :=
  match e with
  | NameError name => "NameError: global name '" ++ name ++ "' is not defined"
  | AttributeError msg => "AttributeError: " ++ msg
  | KeyError key => "KeyError: '" ++ key ++ "'"
  | IndexError => "IndexError: list index out of range"
  | TypeError msg => "TypeError: " ++ msg
  | StageError msg => msg
  | SystemExit _ => "SystemExit"
  | KeyboardInterrupt => "KeyboardInterrupt"
  | GeneratorExit => "GeneratorExit"
  end.

(** [traceback.format_exc()], without the lines of the stack frames. *)
Definition format_exc (e : exn) : string :=
  "Traceback (most recent call last):" ++ String newline (exn_line e).

(** [ndmg_func_pipeline]: the worker inside [try], with the handler
    [except Exception, e]. *)
Definition ndmg_func_pipeline (w : world)
           (func t1w atlas atlas_brain atlas_mask lv_mask : string)
           (labels : labels_arg) (outdir : string)
           (clean : bool) (stc : option string) (fmt : string) : M unit :=
  fun tr =>
    match ndmg_func_worker w func t1w atlas atlas_brain atlas_mask lv_mask
            labels outdir clean stc fmt tr with
    | (tr', inl e) =>
        if isinstance_Exception e
        then print (format_exc e) tr'
        else (tr', inl e)
    | (tr', inr tt) => (tr', inr tt)
    end.

(** The namespace that [parser.parse_args()] returns. *)
Record arguments := {
  arg_func : string;
  arg_t1w : string;
  arg_atlas : string;
  arg_atlas_brain : string;
  arg_atlas_mask : string;
  arg_lv_mask : string;
  arg_outdir : string;
  arg_stc : string;
  arg_labels : list string;
  arg_stc_file : option string;
  arg_clean : bool;
  arg_fmt : string
}.

(** [sys.exit(msg)]: the script has no [import sys]. *)
Definition sys_exit (w : world) (msg : string) : M unit :=
  sys <- lift (lookup_global w "sys") ;;
  match sys with
  | PyModule name =>
      if String.eqb name "sys"
      then lift (raise (SystemExit (ExitMsg msg)))
      else lift (raise (AttributeError "'module' object has no attribute 'exit'"))
  | PyStrList _ =>
      lift (raise (AttributeError "'list' object has no attribute 'exit'"))
  end.

(** [x == s] for an [x] that is [None] or a string. *)
Definition opt_eqb (x : option string) (s : string) : bool :=
  match x with
  | Some t => String.eqb t s
  | None => false
  end.

(** [main], from the parsed arguments on. *)
Definition main (w : world) (result : arguments) : M unit :=
  let stc := if String.eqb (arg_stc result) "none"
             then None else Some (arg_stc result) in
  stc <-
    (if opt_eqb stc "file"
     then match arg_stc_file result with
          | None =>
              sys_exit w
                ("Selected 'file' option for slice timing correction but"
                   ++ " did not pass a file. Please select another option or"
                   ++ " provide a file.") ;;;
              mret stc
          | Some f =>
              if negb (isfile w f)
              then sys_exit w "Invalid file for STC provided." ;;; mret stc
              else mret (Some f)
          end
     else mret stc) ;;
  print ("Creating output directory: " ++ arg_outdir result) ;;;
  print ("Creating output temp directory: " ++ arg_outdir result ++ "/tmp") ;;;
  extern w execute_cmd
    [Leaf ("mkdir -p " ++ arg_outdir result ++ " "
             ++ arg_outdir result ++ "/tmp")] ;;;
  ndmg_func_pipeline w (arg_func result) (arg_t1w result) (arg_atlas result)
    (arg_atlas_brain result) (arg_atlas_mask result) (arg_lv_mask result)
    (LabelList (arg_labels result)) (arg_outdir result)
    (arg_clean result) stc (arg_fmt result).

(** The status with which the interpreter ends when the script's
    [main()] returned or raised. *)
Definition exit_status (r : result unit) : nat :=
  match r with
  | inr _ => 0
  | inl (SystemExit ExitNone) => 0
  | inl (SystemExit (ExitInt n)) => n mod 256
  | inl (SystemExit (ExitMsg _)) => 1
  | inl _ => 1
  end.

(* ================================================================== *)
(** ** The default argument of [flatten] *)

Section DefaultArgument.
Variable A : Type.

(** A list object: the one that [def flatten(current, result=[])]
    creates when the module is loaded, or one created later. *)
Inductive loc :=
| DefaultResult
| Fresh (n : nat).

(** The contents of the list objects. *)
Record heap := {
  default_result : list A;
  fresh : list (list A)
}.

(** The heap when the module has just been loaded. *)
Definition loaded : heap := {| default_result := []; fresh := [] |}.

Definition read (h : heap) (l : loc) : list A :=
  match l with
  | DefaultResult => default_result h
  | Fresh n => nth n (fresh h) []
  end.

Fixpoint update (n : nat) (v : list A) (l : list (list A))
  : list (list A) :=
  match l, n with
  | [], _ => []
  | _ :: l', O => v :: l'
  | x :: l', S n' => x :: update n' v l'
  end.

Definition write (h : heap) (l : loc) (v : list A) : heap :=
  match l with
  | DefaultResult => {| default_result := v; fresh := fresh h |}
  | Fresh n => {| default_result := default_result h;
                  fresh := update n v (fresh h) |}
  end.

(** The literal [[]]: a new empty list object. *)
Definition new_list (h : heap) : loc * heap :=
  (Fresh (List.length (fresh h)),
   {| default_result := default_result h;
      fresh := (fresh h ++ [[]])%list |}).

(** A call [flatten(current, result)] or [flatten(current)]: without
    the second argument [result] is the one default object.  The
    call appends to that object and returns it. *)
Definition flatten_call (current : pytree A) (result : option loc)
           (h : heap) : loc * heap :=
  let l := match result with
           | Some l => l
           | None => DefaultResult
           end in
  (l, write h l (flatten current (read h l))).

(** [flatten(current, [])]. *)
Definition flatten_fresh (current : pytree A) (h : heap) : loc * heap :=
  let (l, h1) := new_list h in
  flatten_call current (Some l) h1.

(** The non-dictionary values of a nested dictionary, in iteration
    order. *)
Fixpoint leaves (t : pytree A) : list A :=
  match t with
  | Leaf a => [a]
  | Dict items =>
      (fix each (l : list (string * pytree A)) : list A :=
         match l with
         | [] => []
         | (_, v) :: l' => (leaves v ++ each l')%list
         end) items
  end.
End DefaultArgument.

(* ================================================================== *)
(** ** Notions used to state the properties *)

(** Some occurrence of [key] in [s] has an underscore somewhere after
    it. *)
Fixpoint followed_by_underscore (key s : string) : bool :=
  match strip_prefix key s with
  | Some rest =>
      if has_char "_" rest then true
      else match s with
           | EmptyString => false
           | String _ s' => followed_by_underscore key s'
           end
  | None =>
      match s with
      | EmptyString => false
      | String _ s' => followed_by_underscore key s'
      end
  end.

(** The text of [s] before its first character that satisfies [sep]. *)
Fixpoint before_first (sep : ascii -> bool) (s : string) : string :=
  match s with
  | EmptyString => EmptyString
  | String c s' => if sep c then EmptyString else String c (before_first sep s')
  end.

Definition is_dot_or_underscore (c : ascii) : bool :=
  re.in_set c ["."%char; "_"%char].

(** A path component without its extensions: the text before its first
    dot. *)
Definition without_extensions (name : string) : string :=
  before_first (is_char ".") name.

(** The label that the specification describes: "label-" and the
    basename without directory components and extensions. *)
Definition label_of_spec (label : string) : string :=
  "label-" ++ without_extensions (os_path.basename label).

(** [tok] stands in [s] as a token: at the start or after a [/] or [_],
    and up to the end, a [.] or a [_]. *)
Definition token_ends (rest : string) : bool :=
  match rest with
  | EmptyString => true
  | String c _ => is_dot_or_underscore c
  end.

Definition has_token_here (tok s : string) : bool :=
  match strip_prefix tok s with
  | Some rest => token_ends rest
  | None => false
  end.

Fixpoint has_token_from (at_start : bool) (tok s : string) : bool :=
  (at_start && has_token_here tok s)
  || match s with
     | EmptyString => false
     | String c s' =>
         has_token_from (Ascii.eqb c "/" || Ascii.eqb c "_") tok s'
     end.

Definition has_token (tok s : string) : bool := has_token_from true tok s.

(** Events of the ROI loop and of what follows it: graph construction,
    saving of the statistics, and a shell command that removes
    directories. *)
Definition after_stages (e : event) : bool :=
  match e with
  | Called execute_cmd [Leaf cmd] => startswith "rm -rf" cmd
  | Called c _ =>
      match c with
      | roi_timeseries | get_ts_shape | graph_init | cor_graph
      | graph_summary | save_graph | roi_ts_qa | qa_save => true
      | _ => false
      end
  | Printed _ => false
  end.

(** A cleanup command. *)
Definition is_cleanup (e : event) : bool :=
  match e with
  | Called execute_cmd [Leaf cmd] => startswith "rm -rf" cmd
  | _ => false
  end.


(** The continuations of the matcher inside a token pattern. *)

(** The continuation of the negative look-ahead: [key] is here. *)
Definition key_here (key : string) (s : string) : option unit :=
  match strip_prefix key s with
  | Some _ => Some tt
  | None => None
  end.

(** The continuation of [.*?]: an underscore is next. *)
Definition underscore_next (s : string) : option string :=
  match
    match s with
    | String c s' => if re.in_set c ["_"%char] then Some tt else None
    | EmptyString => None
    end
  with
  | Some _ => Some s
  | None => None
  end.

(** The exception of [None.group()]. *)
Definition no_group : exn :=
  AttributeError "'NoneType' object has no attribute 'group'".

(** A world in which every external operation returns, the star import
    binds nothing that the script uses, and no file exists. *)
Definition quiet_world : world :=
  {| answer := fun _ _ _ => None;
     star_import := fun _ => None;
     isfile := fun _ => false;
     elapsed := fun _ => "0:00:01" |}.

(** The same, with [sys] bound by the star import. *)
Definition world_with_sys : world :=
  {| answer := fun _ _ _ => None;
     star_import := fun name =>
       if String.eqb name "sys" then Some (PyModule "sys") else None;
     isfile := fun _ => false;
     elapsed := fun _ => "0:00:01" |}.

(** A world in which the user interrupts the preprocessing of the
    functional image. *)
Definition interrupted_world : world :=
  {| answer := fun _ c _ =>
       match c with
       | preproc_func_preprocess => Some KeyboardInterrupt
       | _ => None
       end;
     star_import := fun _ => None;
     isfile := fun _ => false;
     elapsed := fun _ => "0:00:01" |}.

(** The [mkdir] command of [add_dirs] for the given [dirs]. *)
Definition mkdir_event (d : list (string * pytree string)) : event :=
  Called execute_cmd
    [Leaf ("mkdir -p " ++ str_join " " (flatten (Dict d) []))].

(** The object that the constructor builds for a functional image
    [sub-01_bold.nii.gz], the template [MNI152_res-2mm_T1w.nii.gz] and
    the output path [/out]. *)
Definition example_namer : name_resource :=
  {| __subi__ := "sub-01_bold"; __anati__ := "sub-01_T1w";
     __sub__ := "sub-01"; __ses__ := None; __run__ := None;
     __temp__ := "MNI152_res-2mm_T1w"; __space__ := "MNI152";
     __res__ := Some "res-2mm"; __basepath__ := "/out";
     __outdir__ := "/out/sub-01"; dirs := None |}.

(** Command-line arguments that select the STC mode [file] and give
    no STC file. *)
Definition example_arguments : arguments :=
  {| arg_func := "/data/sub-01_bold.nii.gz";
     arg_t1w := "/data/sub-01_T1w.nii.gz";
     arg_atlas := "/atlas/MNI152_res-2mm_T1w.nii.gz";
     arg_atlas_brain := "/atlas/MNI152_res-2mm_brain.nii.gz";
     arg_atlas_mask := "/atlas/MNI152_res-2mm_mask.nii.gz";
     arg_lv_mask := "/atlas/lv_mask.nii.gz";
     arg_outdir := "/out";
     arg_stc := "file";
     arg_labels := ["/atlas/desikan.nii.gz"];
     arg_stc_file := None;
     arg_clean := false;
     arg_fmt := "gpickle" |}.

(** A run of the worker on the files of [example_arguments], without
    slice timing correction. *)
Definition example_worker (w : world) : M unit :=
  ndmg_func_worker w "/data/sub-01_bold.nii.gz" "/data/sub-01_T1w.nii.gz"
    "/atlas/MNI152_res-2mm_T1w.nii.gz" "/atlas/MNI152_res-2mm_brain.nii.gz"
    "/atlas/MNI152_res-2mm_mask.nii.gz" "/atlas/lv_mask.nii.gz"
    (LabelList ["/atlas/desikan.nii.gz"]) "/out" false None "gpickle".

Definition example_pipeline (w : world) : M unit :=
  ndmg_func_pipeline w "/data/sub-01_bold.nii.gz" "/data/sub-01_T1w.nii.gz"
    "/atlas/MNI152_res-2mm_T1w.nii.gz" "/atlas/MNI152_res-2mm_brain.nii.gz"
    "/atlas/MNI152_res-2mm_mask.nii.gz" "/atlas/lv_mask.nii.gz"
    (LabelList ["/atlas/desikan.nii.gz"]) "/out" false None "gpickle".

(** Every event that [m] adds to a trace satisfies [P]. *)
Definition emits {A : Type} (P : event -> bool) (m : M A) : Prop :=
  forall tr tr' r, m tr = (tr', r) ->
  exists new, tr' = (tr ++ new)%list /\ forallb P new = true.

(** [m] returns from every trace, with a value that satisfies [Q]. *)
Definition returns {A : Type} (m : M A) (Q : A -> Prop) : Prop :=
  forall tr, exists tr' a, m tr = (tr', inr a) /\ Q a.

(* ================================================================== *)
(** ** The rest of ndmg/utils/bids_utils.py *)

(** [z.update(y)]: the items of [y] are stored into [z] one by one. *)
Definition dict_update {V} (z y : list (string * V)) : list (string * V) :=
  fold_left (fun z item => dict_set (fst item) (snd item) z) y z.

(** [merge_dicts(x, y)]: [z = x.copy(); z.update(y); return z].  The
    copy is what keeps [x] as it was; here [x] is a value. *)
Definition merge_dicts {V} (x y : list (string * V)) : list (string * V) :=
  let z := x in
  dict_update z y.

(** An argument that is one item or a list of items. *)
Inductive item_or_list :=
| OneItem (x : string)
| ItemList (l : list string).

(** [as_list(x)]. *)
Definition as_list (x : item_or_list) : list string :=
  match x with
  | OneItem s => [s]
  | ItemList l => l
  end.

(** [not x] for an argument that is [None], one string or a list. *)
Definition not_given (x : option item_or_list) : bool :=
  match x with
  | None => true
  | Some (OneItem s) => String.eqb s ""
  | Some (ItemList l) => match l with [] => true | _ => false end
  end.

(** What [sweep_directory] uses of a [BIDSLayout]: the subjects, the
    sessions, tasks and runs of a subject, and the file names that a
    query selects.  The entities are strings, every call gives a list
    of its own (the [+= [None]] of the loop changes no other list), and
    the files of a query are given by their [filename]. *)
Record layout := {
  get_subjects : list string;
  get_sessions : string -> list string;
  get_tasks : string -> list string;
  get_runs : string -> list string;
  get : list (string * string) -> list string
}.

(** The two exceptions that [sweep_directory] itself raises. *)
Inductive sweep_error :=
| UnboundLocalError (name : string)
| ValueError (msg : string).

(** The lists that [sweep_directory] fills. *)
Record sweep_lists := {
  dwis : list string;
  bvals : list string;
  bvecs : list string;
  funcs : list string;
  anats : list string
}.

(** What [sweep_directory] returns: four lists for [dwi], two for
    [func]. *)
Inductive sweep_result :=
| DwiInputs (dwis bvals bvecs anats : list string)
| FuncInputs (funcs anats : list string).

(** [for attr, key in zip(attributes, keys): if attr: query[key] = attr]. *)
Definition add_attributes (query : list (string * string))
           (attributes : list (option string)) (keys : list string)
  : list (string * string) :=
  fold_left
    (fun q (pair : option string * string) =>
       let (attr, key) := pair in
       if truthy attr then dict_set key (format_opt attr) q else q)
    (combine attributes keys) query.

(** [itertools.product(seshs, tasks, runs)]. *)
Definition product3 {A} (xs ys zs : list A) : list (A * A * A) :=
  flat_map (fun x => flat_map (fun y => map (fun z => (x, y, z)) zs) ys) xs.

(** The loop over [zip(dwi, bval, bvec)]. *)
Definition add_dwis (anat0 : string) (files : list (string * string * string))
           (st : sweep_lists) : sweep_lists :=
  fold_left
    (fun st (f : string * string * string) =>
       let '(dw, bva, bve) := f in
       if in_list dw (dwis st) then st
       else {| dwis := (dwis st ++ [dw])%list;
               bvals := (bvals st ++ [bva])%list;
               bvecs := (bvecs st ++ [bve])%list;
               funcs := funcs st;
               anats := (anats st ++ [anat0])%list |})
    files st.

(** The loop over [func]. *)
Definition add_funcs (anat0 : string) (files : list string)
           (st : sweep_lists) : sweep_lists :=
  fold_left
    (fun st fn =>
       if in_list fn (funcs st) then st
       else {| dwis := dwis st; bvals := bvals st; bvecs := bvecs st;
               funcs := (funcs st ++ [fn])%list;
               anats := (anats st ++ [anat0])%list |})
    files st.

Definition nonempty {A} (l : list A) : bool :=
  match l with [] => false | _ => true end.

(** The body of the loop over the combinations of session, task and
    run of one subject. *)
Definition sweep_step (L : layout) (modality sub : string)
           (st : sweep_lists) (combo : option string * option string * option string)
  : sweep_error + sweep_lists :=
  let '(ses, tas, ru) := combo in
  let mod_attributes := [Some sub; ses; tas; ru] in
  let mod_keys := ["subject"; "session"; "task"; "run"] in
  let mod_query := [("modality", modality)] in
  match (if String.eqb modality "dwi" then Some "dwi"
         else if String.eqb modality "func" then Some "bold"
         else None) with
  | None => inl (UnboundLocalError "type_img")
  | Some type_img =>
      let mod_query := dict_set "type" type_img mod_query in
      let mod_query := add_attributes mod_query mod_attributes mod_keys in
      let anat_query := [("modality", "anat"); ("type", "T1w");
                         ("extensions", "nii.gz|nii")] in
      let anat_query :=
        add_attributes anat_query [Some sub; ses] ["subject"; "session"] in
      let anat := get L anat_query in
      if String.eqb modality "dwi"
      then
        let dwi := get L (merge_dicts mod_query [("extensions", "nii.gz|nii")]) in
        let bval := get L (merge_dicts mod_query [("extensions", "bval")]) in
        let bvec := get L (merge_dicts mod_query [("extensions", "bvec")]) in
        match anat with
        | anat0 :: _ =>
            if nonempty dwi && nonempty bval && nonempty bvec
            then inr (add_dwis anat0 (combine (combine dwi bval) bvec) st)
            else inr st
        | [] => inr st
        end
      else if String.eqb modality "func"
      then
        let func := get L (merge_dicts mod_query [("extensions", "nii.gz|nii")]) in
        match anat with
        | anat0 :: _ =>
            if nonempty func then inr (add_funcs anat0 func st) else inr st
        | [] => inr st
        end
      else inr st
  end.

(** A loop whose body can raise. *)
Fixpoint sweep_loop {A} (body : sweep_lists -> A -> sweep_error + sweep_lists)
         (l : list A) (st : sweep_lists) : sweep_error + sweep_lists :=
  match l with
  | [] => inr st
  | x :: l' =>
      match body st x with
      | inr st' => sweep_loop body l' st'
      | inl e => inl e
      end
  end.

(** The values looped over for one of session, task and run: the ones
    of the layout and [None] when the argument is not given, the
    argument as a list otherwise. *)
Definition choices (given : option item_or_list) (of_layout : list string)
  : list (option string) :=
  match given with
  | Some x =>
      if not_given given
      then (map Some of_layout ++ [None])%list
      else map Some (as_list x)
  | None => (map Some of_layout ++ [None])%list
  end.

(** The body of the loop over the subjects. *)
Definition sweep_subject (L : layout) (sesh task run : option item_or_list)
           (modality : string) (st : sweep_lists) (sub : string)
  : sweep_error + sweep_lists :=
  let seshs := choices sesh (get_sessions L sub) in
  let tasks := choices task (get_tasks L sub) in
  let runs := choices run (get_runs L sub) in
  sweep_loop (sweep_step L modality sub) (product3 seshs tasks runs) st.

(** The message of the ValueError: the literal goes on after a backslash
    at the end of its first line, so the indentation of its second line
    is part of the text. *)
Definition incorrect_modality : string :=
  "Incorrect modality passed." ++ "                         "
    ++ "Choices are 'func' and 'dwi'.".

(** [sweep_directory(bdir, subj, sesh, task, run, modality)] on the
    layout of [bdir]. *)
Definition sweep_directory (L : layout)
           (subj sesh task run : option item_or_list) (modality : string)
  : sweep_error + sweep_result :=
  let st := {| dwis := []; bvals := []; bvecs := []; funcs := [];
               anats := [] |} in
  let subjs := match subj with
               | None => get_subjects L
               | Some x => as_list x
               end in
  match sweep_loop (sweep_subject L sesh task run modality) subjs st with
  | inl e => inl e
  | inr st =>
      if String.eqb modality "dwi"
      then inr (DwiInputs (dwis st) (bvals st) (bvecs st) (anats st))
      else if String.eqb modality "func"
      then inr (FuncInputs (funcs st) (anats st))
      else inl (ValueError incorrect_modality)
  end.

(* ================================================================== *)
(** ** More notions used to state the properties *)

(** [tok] is a token of [s] for the key [key]: it starts with the key,
    goes on without underscore and without line end, and an underscore
    follows it in [s]. *)
Definition token_of (key s tok : string) : Prop :=
  exists pre x post,
    s = pre ++ tok ++ String "_" post
    /\ tok = key ++ x
    /\ has_char "_" x = false
    /\ has_char newline x = false.

(** The events of a worker that comes to its end: the cleanup command
    and the last message. *)
Definition finishing (e : event) : bool :=
  match e with
  | Printed text => String.eqb text "Complete!"
  | _ => is_cleanup e
  end.

(** Every exception that [r] can raise satisfies [P]. *)
Definition fails_only {A : Type} (P : exn -> bool) (r : result A) : Prop :=
  forall e, r = inl e -> P e = true.

(** Every exception that [m] can raise satisfies [P]. *)
Definition raises_only {A : Type} (P : exn -> bool) (m : M A) : Prop :=
  forall tr tr' e, m tr = (tr', inl e) -> P e = true.

(** [m] raises from every trace. *)
Definition always_raises {A : Type} (m : M A) : Prop :=
  forall tr, exists tr' e, m tr = (tr', inl e).

(** The external operations of [w] raise instances of [Exception]
    only. *)
Definition raises_Exceptions (w : world) : Prop :=
  forall tr c args e,
    answer w tr c args = Some e -> isinstance_Exception e = true.

(** The text added to the output directory for a directory type. *)
Definition addstr_of (dirt : string) : string :=
  if String.eqb dirt "output" then "" else dirt.

(** A world in which the nuisance correction fails with an exception of
    its own and everything else returns. *)
Definition failing_world : world :=
  {| answer := fun _ c _ =>
       match c with
       | nuis_correct => Some (StageError "ValueError: singular matrix")
       | _ => None
       end;
     star_import := fun _ => None;
     isfile := fun _ => false;
     elapsed := fun _ => "0:00:01" |}.




(** What the loops of [sweep_directory] keep true of the lists: no file
    is taken twice, and the lists stay aligned. *)
Definition aligned (modality : string) (st : sweep_lists) : Prop :=
  NoDup (dwis st) /\ NoDup (funcs st)
  /\ List.length (bvals st) = List.length (dwis st)
  /\ List.length (bvecs st) = List.length (dwis st)
  /\ List.length (anats st) = List.length (dwis st) + List.length (funcs st)
  /\ (String.eqb modality "dwi" = false -> dwis st = [])
  /\ (String.eqb modality "dwi" = true -> funcs st = []).

(** The subjects that [sweep_directory] loops over. *)
Definition subjects_of (L : layout) (subj : option item_or_list)
  : list string :=
  match subj with
  | None => get_subjects L
  | Some x => as_list x
  end.

(** A layout with one subject that has one functional and one
    anatomical image. *)
Definition example_layout : layout :=
  {| get_subjects := ["01"];
     get_sessions := fun _ => [];
     get_tasks := fun _ => ["rest"];
     get_runs := fun _ => [];
     get := fun query =>
       match dict_get "modality" query with
       | inr m => if String.eqb m "anat" then ["sub-01_T1w.nii.gz"]
                  else ["sub-01_task-rest_bold.nii.gz"]
       | inl _ => []
       end |}.

(** A layout with one subject that has a diffusion image with its
    b-values and b-vectors, and an anatomical image. *)
Definition example_dwi_layout : layout :=
  {| get_subjects := ["01"];
     get_sessions := fun _ => [];
     get_tasks := fun _ => [];
     get_runs := fun _ => [];
     get := fun query =>
       match dict_get "modality" query, dict_get "extensions" query with
       | inr m, inr e =>
           if String.eqb m "anat" then ["sub-01_T1w.nii.gz"]
           else if String.eqb e "bval" then ["sub-01_dwi.bval"]
           else if String.eqb e "bvec" then ["sub-01_dwi.bvec"]
           else ["sub-01_dwi.nii.gz"]
       | _, _ => []
       end |}.

(** [f] is a file that the layout gives for a query with the modality,
    type and extensions given, for one of the subjects [subs]. *)
Definition queried (L : layout) (subs : list string)
           (modality type_img extensions f : string) : Prop :=
  exists q sub,
    In f (get L q)
    /\ In sub subs
    /\ dict_get "modality" q = inr modality
    /\ dict_get "type" q = inr type_img
    /\ dict_get "extensions" q = inr extensions
    /\ (sub <> "" -> dict_get "subject" q = inr sub).

(** Every file in the lists of [sweep_directory] was given by the
    layout, for the query of its kind. *)
Definition from_layout (L : layout) (subs : list string) (st : sweep_lists)
  : Prop :=
  Forall (queried L subs "dwi" "dwi" "nii.gz|nii") (dwis st)
  /\ Forall (queried L subs "dwi" "dwi" "bval") (bvals st)
  /\ Forall (queried L subs "dwi" "dwi" "bvec") (bvecs st)
  /\ Forall (queried L subs "func" "bold" "nii.gz|nii") (funcs st)
  /\ Forall (queried L subs "anat" "T1w" "nii.gz|nii") (anats st).

(* ================================================================== *)
(** * Properties *)

Unset Implicit Arguments.

(** ** Strings *)

Lemma has_char_app (c : ascii) (a b : string) :
  has_char c (a ++ b) = has_char c a || has_char c b.
Proof.
  induction a as [|d a IH]; simpl; [reflexivity|].
  destruct (Ascii.eqb c d); [reflexivity | exact IH].
Qed.

Lemma strip_prefix_app (p s : string) : strip_prefix p (p ++ s) = Some s.
Proof.
  induction p as [|a p IH]; simpl; [reflexivity|].
  rewrite Ascii.eqb_refl. exact IH.
Qed.

Lemma strip_prefix_inv (p s rest : string) :
  strip_prefix p s = Some rest -> s = p ++ rest.
Proof.
  revert s; induction p as [|a p IH]; intros s H; simpl in *.
  - congruence.
  - destruct s as [|b s]; [discriminate|].
    destruct (Ascii.eqb_spec a b) as [->|]; [|discriminate].
    f_equal. apply IH, H.
Qed.

Lemma length_app (a b : string) :
  String.length (a ++ b) = String.length a + String.length b.
Proof. induction a; simpl; congruence. Qed.

Lemma take_app (a b : string) :
  re.take (String.length (a ++ b) - String.length b) (a ++ b) = a.
Proof.
  rewrite length_app.
  replace (String.length a + String.length b - String.length b)
    with (String.length a) by lia.
  induction a as [|c a IH]; simpl.
  - destruct b; reflexivity.
  - f_equal. exact IH.
Qed.

Lemma occurs_tail (p : string) (c : ascii) (s : string) :
  occurs p s = true -> occurs p (String c s) = true.
Proof.
  intro H. cbn [occurs]. destruct (startswith p (String c s)); auto.
Qed.

Lemma occurs_app_r (p a b : string) :
  occurs p b = true -> occurs p (a ++ b) = true.
Proof.
  intro H. induction a as [|c a IH]; simpl append; [exact H|].
  apply occurs_tail, IH.
Qed.

Lemma occurs_here (p s : string) : occurs p (p ++ s) = true.
Proof.
  destruct (p ++ s) eqn:E; cbn [occurs]; unfold startswith;
    rewrite <- E, strip_prefix_app; reflexivity.
Qed.

(** [followed_by_underscore] says what its name says. *)
Lemma followed_by_underscore_spec (key s : string) :
  followed_by_underscore key s = true <->
  exists pre rest, s = pre ++ key ++ rest /\ has_char "_" rest = true.
Proof.
  split.
  - induction s as [|c s IH]; cbn [followed_by_underscore]; intro H.
    + destruct (strip_prefix key "") as [rest|] eqn:E; [|discriminate].
      destruct (has_char "_" rest) eqn:U; [|discriminate].
      exists "", rest. split; [exact (strip_prefix_inv key _ _ E) | exact U].
    + assert (T : followed_by_underscore key s = true ->
                  exists pre rest, String c s = pre ++ key ++ rest
                                   /\ has_char "_" rest = true).
      { intro F. destruct (IH F) as (pre & rest & -> & U).
        exists (String c pre), rest. split; [reflexivity | exact U]. }
      destruct (strip_prefix key (String c s)) as [rest|] eqn:E; [|auto].
      destruct (has_char "_" rest) eqn:U; [|auto].
      exists "", rest. split; [exact (strip_prefix_inv key _ _ E) | exact U].
  - intros (pre & rest & -> & U).
    induction pre as [|c pre IH].
    + simpl append.
      destruct (key ++ rest) eqn:E; cbn [followed_by_underscore];
        rewrite <- E, strip_prefix_app, U; reflexivity.
    + simpl append. cbn [followed_by_underscore]. rewrite IH.
      destruct (strip_prefix key _) as [r|]; [destruct (has_char "_" r)|];
        reflexivity.
Qed.

Lemma followed_occurs (key s : string) :
  followed_by_underscore key s = true -> occurs key s = true.
Proof.
  intro H. apply followed_by_underscore_spec in H.
  destruct H as (pre & rest & -> & _).
  apply occurs_app_r, occurs_here.
Qed.

Lemma append_assoc (a b c : string) : (a ++ b) ++ c = a ++ b ++ c.
Proof. induction a; simpl; congruence. Qed.

(** ** The token patterns *)



Lemma match_rest_token (key s : string) :
  re.match_rest (token_pattern key) s =
  match strip_prefix key s with
  | Some s1 =>
      match re.greedy (key_here key) s1 with
      | Some _ => None
      | None => re.lazy underscore_next s1
      end
  | None => None
  end.
Proof. reflexivity. Qed.

Lemma in_set_underscore (c : ascii) :
  re.in_set c ["_"%char] = Ascii.eqb "_" c.
Proof.
  unfold re.in_set; simpl. rewrite orb_false_r. apply Ascii.eqb_sym.
Qed.

Lemma lazy_underscore_has (s r : string) :
  re.lazy underscore_next s = Some r -> has_char "_" s = true.
Proof.
  induction s as [|c s IH]; cbn [re.lazy]; [discriminate|].
  unfold underscore_next at 1. rewrite in_set_underscore.
  cbn [has_char]. destruct (Ascii.eqb "_" c); [reflexivity|].
  destruct (re.dot c); [exact IH | discriminate].
Qed.

Lemma lazy_underscore_first (x post : string) :
  has_char newline x = false -> has_char "_" x = false ->
  re.lazy underscore_next (x ++ String "_" post) = Some (String "_" post).
Proof.
  induction x as [|c x IH]; simpl append; intros N U.
  - reflexivity.
  - cbn [has_char] in N, U.
    destruct (Ascii.eqb_spec newline c) as [|Nc]; [discriminate|].
    destruct (Ascii.eqb "_" c) eqn:Uc; [discriminate|].
    cbn [re.lazy]. unfold underscore_next at 1.
    rewrite in_set_underscore, Uc.
    unfold re.dot. destruct (Ascii.eqb_spec c newline) as [->|]; [congruence|].
    simpl. apply IH; assumption.
Qed.

Lemma greedy_key_none (key s : string) :
  occurs key s = false -> re.greedy (key_here key) s = None.
Proof.
  induction s as [|c s IH]; cbn [occurs re.greedy]; unfold startswith.
  - unfold key_here. destruct (strip_prefix key ""); [discriminate | reflexivity].
  - destruct (strip_prefix key (String c s)) eqn:E; [discriminate|].
    intro O. rewrite (IH O). unfold key_here. rewrite E.
    destruct (re.dot c); reflexivity.
Qed.

Lemma greedy_key_some (key s : string) :
  has_char newline s = false -> occurs key s = true ->
  re.greedy (key_here key) s = Some tt.
Proof.
  induction s as [|c s IH]; cbn [occurs re.greedy has_char];
    unfold startswith.
  - unfold key_here. destruct (strip_prefix key ""); [reflexivity | discriminate].
  - intros N O.
    destruct (Ascii.eqb_spec newline c) as [|Nc]; [discriminate|].
    unfold re.dot. destruct (Ascii.eqb_spec c newline) as [->|]; [congruence|].
    simpl negb. cbv iota.
    destruct (occurs key s) eqn:Os.
    + rewrite (IH N eq_refl). reflexivity.
    + rewrite (greedy_key_none _ _ Os). unfold key_here.
      destruct (strip_prefix key (String c s)); [reflexivity | discriminate].
Qed.

(** A match of a token pattern starts at an occurrence of the key that
    has an underscore after it. *)
Lemma match_rest_followed (key s r : string) :
  re.match_rest (token_pattern key) s = Some r ->
  exists rest, strip_prefix key s = Some rest /\ has_char "_" rest = true.
Proof.
  rewrite match_rest_token.
  destruct (strip_prefix key s) as [s1|]; [|discriminate].
  destruct (re.greedy (key_here key) s1); [discriminate|].
  intro L. exists s1. split; [reflexivity|].
  eapply lazy_underscore_has, L.
Qed.

Lemma search_followed (key s : string) (m : re.match_object) :
  re.search (token_pattern key) s = Some m ->
  followed_by_underscore key s = true.
Proof.
  induction s as [|c s IH]; cbn [re.search followed_by_underscore];
    unfold re.match_here.
  - destruct (re.match_rest (token_pattern key) "") as [r|] eqn:E;
      [|discriminate].
    destruct (match_rest_followed _ _ _ E) as (rest & -> & ->). reflexivity.
  - destruct (re.match_rest (token_pattern key) (String c s)) as [r|] eqn:E.
    + destruct (match_rest_followed _ _ _ E) as (rest & -> & ->). reflexivity.
    + intro H. rewrite (IH H).
      destruct (strip_prefix key (String c s)) as [r|];
        [destruct (has_char "_" r)|]; reflexivity.
Qed.

Lemma search_none (key s : string) :
  followed_by_underscore key s = false ->
  re.search (token_pattern key) s = None.
Proof.
  intro F. destruct (re.search (token_pattern key) s) as [m|] eqn:E;
    [|reflexivity].
  apply search_followed in E. congruence.
Qed.

Lemma search_none_absent (key s : string) :
  occurs key s = false -> re.search (token_pattern key) s = None.
Proof.
  intro O. apply search_none.
  destruct (followed_by_underscore key s) eqn:F; [|reflexivity].
  apply followed_occurs in F. congruence.
Qed.

(** At the last occurrence of the key the pattern matches the key and
    the text up to the next underscore. *)
Lemma match_here_last (key x post : string) :
  has_char newline x = false -> has_char "_" x = false ->
  occurs key (x ++ String "_" post) = false ->
  re.match_here (token_pattern key) (key ++ x ++ String "_" post)
  = Some {| re.group := key ++ x |}.
Proof.
  intros N U O. unfold re.match_here.
  rewrite match_rest_token, strip_prefix_app, (greedy_key_none _ _ O),
    (lazy_underscore_first _ post N U).
  rewrite <- append_assoc, take_app. reflexivity.
Qed.

Lemma has_char_tail (c d : ascii) (s : string) :
  has_char c (String d s) = false -> has_char c s = false.
Proof. cbn [has_char]. destruct (Ascii.eqb c d); [discriminate | auto]. Qed.

Lemma greedy_here (k : string -> option unit) (s : string) :
  k s = Some tt -> re.greedy k s = Some tt.
Proof.
  intro H. destruct s as [|c s]; cbn [re.greedy]; [exact H|].
  destruct (re.dot c); [|exact H].
  destruct (re.greedy k s) as [[]|]; [reflexivity | exact H].
Qed.

Lemma greedy_key_found (key a b : string) :
  has_char newline a = false ->
  re.greedy (key_here key) (a ++ key ++ b) = Some tt.
Proof.
  induction a as [|c a IH]; simpl append; intro N.
  - apply greedy_here. unfold key_here. rewrite strip_prefix_app. reflexivity.
  - cbn [re.greedy]. unfold re.dot.
    cbn [has_char] in N.
    destruct (Ascii.eqb_spec newline c) as [|Nc]; [discriminate|].
    destruct (Ascii.eqb_spec c newline) as [->|]; [congruence|].
    simpl negb. cbv iota. rewrite (IH N). reflexivity.
Qed.

(** Before the last [sub-] the subject pattern does not match when no
    line ends in between: the negative look-ahead sees the later
    [sub-]. *)
Lemma sub_not_before (c : ascii) (pre tail : string) :
  has_char newline pre = false ->
  re.match_here (token_pattern "sub-") (String c (pre ++ "sub-" ++ tail))
  = None.
Proof.
  intro N. unfold re.match_here. rewrite match_rest_token.
  destruct (strip_prefix "sub-" (String c (pre ++ "sub-" ++ tail)))
    as [s1|] eqn:E; [|reflexivity].
  apply strip_prefix_inv in E.
  destruct pre as [|c1 [|c2 [|c3 pre]]]; simpl in E;
    try (inversion E; fail).
  injection E as _ _ _ _ E. subst s1.
  do 3 apply has_char_tail in N.
  pose proof (greedy_key_found "sub-" pre tail N) as G.
  simpl append in G. rewrite G. reflexivity.
Qed.

(** The subject pattern finds the last [sub-] when an underscore
    follows it and no line ends before that underscore; it matches up
    to the underscore. *)
Lemma search_sub_last (pre x post : string) :
  has_char newline (pre ++ x) = false ->
  has_char "_" x = false ->
  occurs "sub-" (x ++ String "_" post) = false ->
  re.search (token_pattern "sub-") (pre ++ "sub-" ++ x ++ String "_" post)
  = Some {| re.group := "sub-" ++ x |}.
Proof.
  intros N U O. induction pre as [|c pre IH].
  - pose proof (match_here_last "sub-" x post N U O) as M.
    simpl append in *. cbn [re.search]. rewrite M. reflexivity.
  - simpl append in N. pose proof (has_char_tail _ _ _ N) as N'.
    assert (Np : has_char newline pre = false).
    { rewrite has_char_app in N'. apply orb_false_iff in N'. apply N'. }
    pose proof (sub_not_before c pre (x ++ String "_" post) Np) as B.
    simpl append in *. cbn [re.search]. rewrite B. exact (IH N').
Qed.

(** ** The constructor *)


(** The constructor raises exactly when the subject pattern finds
    nothing. *)
Lemma init_none (modf t1wf tempf opath : string) :
  re.search (token_pattern "sub-") modf = None ->
  __init__ modf t1wf tempf opath = inl no_group.
Proof. intro H. unfold __init__. rewrite H. reflexivity. Qed.

Lemma init_some (modf t1wf tempf opath : string) (m : re.match_object) :
  re.search (token_pattern "sub-") modf = Some m ->
  exists self,
    __init__ modf t1wf tempf opath = inr self
    /\ __sub__ self = re.group m
    /\ __ses__ self = group_if_matched (re.search (token_pattern "ses-") modf)
    /\ __run__ self = group_if_matched (re.search (token_pattern "run-") modf)
    /\ __res__ self = group_if_matched (re.search (token_pattern "res-") tempf)
    /\ __basepath__ self = opath
    /\ __outdir__ self =
         (if truthy (__ses__ self)
          then join_from opath [__sub__ self; format_opt (__ses__ self)]
          else join_from opath [__sub__ self])
    /\ dirs self = None.
Proof.
  intro H. unfold __init__. rewrite H. cbn [group_of bind ret].
  unfold _get_outdir.
  destruct (truthy (group_if_matched (re.search (token_pattern "ses-") modf)))
    eqn:T; cbn [app os_path.join bind ret];
    eexists; (split; [reflexivity|]); cbn; rewrite ?T; repeat split.
Qed.

(** C3 as stated fails: this file name contains the token [sub-01], and
    the constructor raises. *)
Lemma subject_token_counterexample :
  has_token "sub-01" "sub-01.nii.gz" = true
  /\ __init__ "sub-01.nii.gz" "sub-01_T1w.nii.gz" "MNI152_T1_res-2mm.nii.gz"
       "/out" = inl no_group.
Proof. split; reflexivity. Qed.

(** C3 also fails without an exception: with two subject tokens the
    field is the last one. *)
Example subject_token_twice :
  has_token "sub-01" "sub-01_sub-02_bold.nii.gz" = true
  /\ exists self,
       __init__ "sub-01_sub-02_bold.nii.gz" "t1w.nii" "atlas.nii" "/out"
       = inr self
       /\ __sub__ self = "sub-02".
Proof. split; [reflexivity|]. eexists. split; reflexivity. Qed.

(** C3, amended: when the last [sub-] of the modality file name is
    followed by an underscore, and no line ends before that underscore,
    the constructor succeeds and the subject field is the text from that
    [sub-] up to the first underscore after it. *)
Theorem subject_is_last_sub_token
        (modf t1wf tempf opath pre x post : string) :
  modf = pre ++ "sub-" ++ x ++ String "_" post ->
  has_char newline (pre ++ x) = false ->
  has_char "_" x = false ->
  occurs "sub-" (x ++ String "_" post) = false ->
  exists self,
    __init__ modf t1wf tempf opath = inr self
    /\ __sub__ self = "sub-" ++ x.
Proof.
  intros -> N U O.
  destruct (init_some _ t1wf tempf opath _ (search_sub_last pre x post N U O))
    as (self & I & S & _).
  exists self. split; [exact I | exact S].
Qed.

Lemma subject_is_last_sub_token_witness :
  exists self,
    __init__ "/data/sub-01/func/sub-01_task-rest_bold.nii.gz"
      "/data/sub-01/anat/sub-01_T1w.nii.gz" "/atlas/MNI152_res-2mm.nii.gz"
      "/out" = inr self
    /\ __sub__ self = "sub-01".
Proof.
  apply (subject_is_last_sub_token
           "/data/sub-01/func/sub-01_task-rest_bold.nii.gz"
           "/data/sub-01/anat/sub-01_T1w.nii.gz"
           "/atlas/MNI152_res-2mm.nii.gz" "/out"
           "/data/sub-01/func/" "01" "task-rest_bold.nii.gz");
    reflexivity.
Defined.

(** C4 as stated fails for the subject pattern: when it finds nothing
    the constructor raises instead of leaving a [None] field. *)
Lemma subject_failure_counterexample :
  re.search (token_pattern "sub-") "bold.nii.gz" = None
  /\ __init__ "bold.nii.gz" "T1w.nii.gz" "MNI152_T1_2mm.nii.gz" "/out"
     = inl no_group.
Proof. split; reflexivity. Qed.

(** C4, amended: a failure of the subject pattern raises AttributeError;
    once the subject is found, a failure of the session, run or
    resolution pattern leaves [None] in the field and raises nothing,
    and a [None] resolution is formatted into the template space, which
    then ends in [res-None]. *)
Theorem optional_tokens_none (modf t1wf tempf opath : string) :
  (re.search (token_pattern "sub-") modf = None ->
   __init__ modf t1wf tempf opath = inl no_group)
  /\ (forall m, re.search (token_pattern "sub-") modf = Some m ->
      exists self,
        __init__ modf t1wf tempf opath = inr self
        /\ (re.search (token_pattern "ses-") modf = None ->
            __ses__ self = None)
        /\ (re.search (token_pattern "run-") modf = None ->
            __run__ self = None)
        /\ (re.search (token_pattern "res-") tempf = None ->
            __res__ self = None
            /\ get_template_space self
               = "space-" ++ __space__ self ++ "_res-None")).
Proof.
  split; [apply init_none|].
  intros m H.
  destruct (init_some _ t1wf tempf opath _ H)
    as (self & I & _ & Ses & Run & Res & _).
  exists self. split; [exact I|].
  unfold get_template_space. rewrite Ses, Run, Res.
  split; [intros ->; reflexivity|].
  split; [intros ->; reflexivity|].
  intros ->. split; reflexivity.
Qed.

Lemma optional_tokens_none_witness :
  exists self,
    __init__ "sub-01_bold.nii.gz" "sub-01_T1w.nii.gz" "MNI152.nii.gz" "/out"
    = inr self
    /\ __ses__ self = None /\ __run__ self = None /\ __res__ self = None
    /\ get_template_space self = "space-MNI152_res-None".
Proof.
  destruct (proj2 (optional_tokens_none "sub-01_bold.nii.gz"
                     "sub-01_T1w.nii.gz" "MNI152.nii.gz" "/out")
              {| re.group := "sub-01" |} eq_refl)
    as (self & I & Ses & Run & Res).
  exists self. split; [exact I|].
  destruct (Res eq_refl) as [R T].
  split; [exact (Ses eq_refl)|]. split; [exact (Run eq_refl)|].
  split; [exact R|].
  rewrite T. replace (__space__ self) with "MNI152"; [reflexivity|].
  vm_compute in I. injection I as <-. reflexivity.
Defined.

(** C5 as stated fails: this file name contains no [ses-], and the
    constructor raises, so that there is no object, no session field
    and no output directory. *)
Lemma outdir_without_session_counterexample :
  occurs "ses-" "sub-01.nii.gz" = false
  /\ __init__ "sub-01.nii.gz" "sub-01_T1w.nii.gz" "MNI152_T1_res-2mm.nii.gz"
       "/out" = inl no_group.
Proof. split; reflexivity. Qed.

(** C5, amended: when the modality file name contains no [ses-] and its
    last [sub-] is followed by an underscore, with no line end before
    that underscore, the constructor returns; the subject field is the
    text from that [sub-] up to the underscore, the session field is
    [None], and the output directory is the join of the base output
    path and that subject only. *)
Theorem outdir_without_session (pre x post t1wf tempf opath : string) :
  occurs "ses-" (pre ++ "sub-" ++ x ++ String "_" post) = false ->
  has_char newline (pre ++ x) = false ->
  has_char "_" x = false ->
  occurs "sub-" (x ++ String "_" post) = false ->
  exists self,
    __init__ (pre ++ "sub-" ++ x ++ String "_" post) t1wf tempf opath
    = inr self
    /\ __sub__ self = "sub-" ++ x
    /\ __ses__ self = None
    /\ os_path.join [opath; "sub-" ++ x] = inr (get_outdir self).
Proof.
  intros O N U S.
  pose proof (search_sub_last pre x post N U S) as H.
  destruct (init_some _ t1wf tempf opath _ H)
    as (self & I & Sub & Ses & _ & _ & _ & Out & _).
  cbn [re.group] in Sub.
  exists self. split; [exact I|]. split; [exact Sub|].
  rewrite (search_none_absent _ _ O) in Ses. cbn in Ses.
  split; [exact Ses|].
  unfold get_outdir. rewrite Out, Ses, Sub. reflexivity.
Qed.

Lemma outdir_without_session_witness :
  exists self,
    __init__ "/data/sub-01/func/sub-01_task-rest_bold.nii.gz"
      "/data/sub-01/anat/sub-01_T1w.nii.gz" "/atlas/MNI152_res-2mm.nii.gz"
      "/out" = inr self
    /\ __sub__ self = "sub-01"
    /\ __ses__ self = None
    /\ os_path.join ["/out"; "sub-01"] = inr (get_outdir self).
Proof.
  apply (outdir_without_session "/data/sub-01/func/" "01"
           "task-rest_bold.nii.gz"
           "/data/sub-01/anat/sub-01_T1w.nii.gz"
           "/atlas/MNI152_res-2mm.nii.gz" "/out");
    reflexivity.
Defined.

(** C9: when no [sub-] of the modality file name has an underscore
    after it, the constructor raises (the result of the subject search
    is dereferenced as it is).  The other three tokens are optional:
    whenever the subject is found the constructor returns, with [None]
    for each of the session, run and resolution that is not followed by
    an underscore. *)
Theorem subject_is_mandatory (modf t1wf tempf opath : string) :
  (followed_by_underscore "sub-" modf = false ->
   __init__ modf t1wf tempf opath = inl no_group)
  /\ (forall m, re.search (token_pattern "sub-") modf = Some m ->
      exists self,
        __init__ modf t1wf tempf opath = inr self
        /\ (followed_by_underscore "ses-" modf = false -> __ses__ self = None)
        /\ (followed_by_underscore "run-" modf = false -> __run__ self = None)
        /\ (followed_by_underscore "res-" tempf = false ->
            __res__ self = None)).
Proof.
  split.
  - intro F. apply init_none, search_none, F.
  - intros m H.
    destruct (init_some _ t1wf tempf opath _ H)
      as (self & I & _ & Ses & Run & Res & _).
    exists self. split; [exact I|].
    rewrite Ses, Run, Res.
    split; [|split]; intro F; rewrite (search_none _ _ F); reflexivity.
Qed.

Lemma subject_is_mandatory_witness :
  __init__ "/data/func/task-rest_bold.nii.gz" "/data/anat/T1w.nii.gz"
    "/atlas/MNI152_res-2mm.nii.gz" "/out" = inl no_group
  /\ exists self,
       __init__ "sub-01_bold.nii.gz" "sub-01_T1w.nii.gz" "MNI152.nii.gz"
         "/out" = inr self
       /\ __ses__ self = None /\ __run__ self = None /\ __res__ self = None.
Proof.
  split.
  - apply (proj1 (subject_is_mandatory "/data/func/task-rest_bold.nii.gz"
                    "/data/anat/T1w.nii.gz" "/atlas/MNI152_res-2mm.nii.gz"
                    "/out")).
    reflexivity.
  - destruct (proj2 (subject_is_mandatory "sub-01_bold.nii.gz"
                       "sub-01_T1w.nii.gz" "MNI152.nii.gz" "/out")
                {| re.group := "sub-01" |} eq_refl)
      as (self & I & Ses & Run & Res).
    exists self. split; [exact I|].
    split; [exact (Ses eq_refl)|]. split; [exact (Run eq_refl)|].
    exact (Res eq_refl).
Defined.

(** ** [get_label] *)

Lemma match_rest_one_of (cs : list ascii) (s : string) :
  re.match_rest (re.OneOf cs) s =
  match s with
  | String c s' => if re.in_set c cs then Some s' else None
  | EmptyString => None
  end.
Proof. reflexivity. Qed.

(** Splitting at a character set cuts at every character of the set. *)
Lemma split_one_of (cs : list ascii) (s : string) (fuel : nat) :
  String.length s < fuel ->
  re.split_fuel fuel (re.OneOf cs) s = split_on (fun c => re.in_set c cs) s.
Proof.
  revert fuel. induction s as [|c s IH]; intros fuel L.
  - destruct fuel; [inversion L | reflexivity].
  - destruct fuel as [|fuel]; [inversion L|].
    cbn [re.split_fuel split_on]. rewrite match_rest_one_of.
    cbn [String.length] in L.
    destruct (re.in_set c cs).
    + replace (Nat.ltb (String.length s) (String.length (String c s)))
        with true by (symmetry; apply Nat.ltb_lt; cbn; lia).
      rewrite IH by lia. reflexivity.
    + rewrite IH by lia. reflexivity.
Qed.

Lemma item0_split_on (sep : ascii -> bool) (s : string) :
  item0 (split_on sep s) = before_first sep s.
Proof.
  induction s as [|c s IH]; cbn [split_on before_first]; [reflexivity|].
  destruct (sep c); [reflexivity|].
  destruct (split_on sep s) as [|h t]; cbn [item0 hd] in *; congruence.
Qed.

Lemma get_label_eq (label : string) :
  get_label label
  = "label-" ++ before_first is_dot_or_underscore (os_path.basename label).
Proof.
  unfold get_label, re.split, dot_or_underscore.
  rewrite split_one_of by lia. rewrite item0_split_on. reflexivity.
Qed.

Lemma before_first_no_underscore (s : string) :
  has_char "_" s = false ->
  before_first is_dot_or_underscore s = before_first (is_char ".") s.
Proof.
  induction s as [|c s IH]; cbn [has_char before_first]; [reflexivity|].
  unfold is_dot_or_underscore at 1, re.in_set, is_char. cbn [existsb].
  rewrite orb_false_r, (Ascii.eqb_sym c "_"), (Ascii.eqb_sym c ".").
  destruct (Ascii.eqb "_" c); [discriminate|].
  intro U. rewrite orb_false_r, (IH U). reflexivity.
Qed.

(** C7 as stated fails: the basename is cut at its first underscore as
    well, so more than the directories and the extensions is gone. *)
Lemma get_label_counterexample :
  get_label "/atlases/desikan_res-2mm.nii.gz" = "label-desikan"
  /\ label_of_spec "/atlases/desikan_res-2mm.nii.gz" = "label-desikan_res-2mm".
Proof. split; reflexivity. Qed.

(** C7, amended: [get_label] returns "label-" followed by the basename
    of the path cut at its first dot or underscore; when the basename
    has no underscore this is the basename without its extensions. *)
Theorem get_label_cuts_at_dot_or_underscore (label : string) :
  get_label label
  = "label-" ++ before_first is_dot_or_underscore (os_path.basename label)
  /\ (has_char "_" (os_path.basename label) = false ->
      get_label label = label_of_spec label).
Proof.
  split; [apply get_label_eq|].
  intro U. rewrite get_label_eq. unfold label_of_spec, without_extensions.
  rewrite (before_first_no_underscore _ U). reflexivity.
Qed.

Lemma get_label_cuts_at_dot_or_underscore_witness :
  get_label "/atlases/desikan-2mm.nii.gz" = label_of_spec "/atlases/desikan-2mm.nii.gz".
Proof.
  apply (proj2 (get_label_cuts_at_dot_or_underscore
                  "/atlases/desikan-2mm.nii.gz")).
  reflexivity.
Defined.

(** ** [flatten] *)

(** [flatten] appends the leaves of [current] to what [result] held. *)
Lemma flatten_leaves (A : Type) (current : pytree A) :
  forall result, flatten current result = (result ++ leaves current)%list.
Proof.
  revert current. fix IH 1. intros [a|items] result; [reflexivity|].
  cbn [flatten leaves]. revert result.
  induction items as [|[k v] items IHitems]; intro result.
  - rewrite app_nil_r. reflexivity.
  - rewrite (IH v), IHitems, app_assoc. reflexivity.
Qed.

Lemma nth_update_last (A : Type) (l : list (list A)) (v : list A) :
  nth (List.length l) (update (List.length l) v (l ++ [[]])%list) [] = v.
Proof. induction l as [|x l IH]; [reflexivity | exact IH]. Qed.

(** C10: [flatten(d, [])] returns exactly the leaves of [d].  Without
    the second argument every call appends to the one default list and
    returns that same list: after a first call [flatten(d)] a second
    call returns a list that still holds the leaves appended by the
    first, followed by the leaves again. *)
Theorem flatten_default_is_shared (A : Type) (d : pytree A) (h : heap A) :
  read (snd (flatten_fresh d h)) (fst (flatten_fresh d h)) = leaves d
  /\ (let first := flatten_call d None h in
      let second := flatten_call d None (snd first) in
      fst first = DefaultResult /\ fst second = fst first
      /\ read (snd first) (fst first)
         = (default_result h ++ leaves d)%list
      /\ read (snd second) (fst second)
         = ((default_result h ++ leaves d) ++ leaves d)%list
      /\ read (snd second) (fst first) = read (snd second) (fst second)).
Proof.
  split.
  - unfold flatten_fresh, new_list, flatten_call. cbn [fst snd read write fresh].
    rewrite nth_update_last. cbn [read fresh]. rewrite app_nth2 by lia.
    rewrite Nat.sub_diag. cbn [nth]. rewrite flatten_leaves. reflexivity.
  - unfold flatten_call. cbn [fst snd read write default_result].
    rewrite !flatten_leaves. repeat split.
Qed.

(** On the heap of a freshly loaded module, the second of two calls
    [flatten(d)] returns the one leaf twice. *)
Example flatten_twice :
  let d := Dict [("tmp", Dict [("base", Leaf "/out/tmp")])] in
  let first := flatten_call d None (loaded string) in
  let second := flatten_call d None (snd first) in
  read (snd first) (fst first) = ["/out/tmp"]
  /\ read (snd second) (fst second) = ["/out/tmp"; "/out/tmp"]
  /\ read (snd (flatten_fresh d (snd second))) (fst (flatten_fresh d (snd second)))
     = ["/out/tmp"].
Proof. repeat split. Qed.

(** ** [add_dirs] *)

Lemma add_dirs_run (w : world) (self : name_resource)
      (paths : list (string * string)) (labels : labels_arg)
      (label_dirs : list string) (tr : list event) :
  let d := build_dirs (get_outdir self) paths (as_label_list labels)
             label_dirs in
  add_dirs w self paths labels label_dirs tr
  = ((tr ++ [mkdir_event d])%list,
     match answer w tr execute_cmd
             [Leaf ("mkdir -p " ++ str_join " " (flatten (Dict d) []))] with
     | Some e => inl e
     | None => inr (set_dirs self d)
     end).
Proof.
  cbv zeta. unfold add_dirs, mbind, lift, extern, mret, mkdir_event.
  cbn [get_dirs set_dirs dirs ret].
  destruct (answer w tr execute_cmd _); reflexivity.
Qed.

(** C8: a second [add_dirs] with the same arguments, on the object that
    the first one returned, issues the same [mkdir] command for the
    same flattened directories and leaves the object, hence its [dirs],
    as it was. *)
Theorem add_dirs_idempotent (w : world) (self self1 : name_resource)
        (paths : list (string * string)) (labels : labels_arg)
        (label_dirs : list string) (tr tr1 : list event) :
  add_dirs w self paths labels label_dirs tr = (tr1, inr self1) ->
  exists d,
    dirs self1 = Some d
    /\ tr1 = (tr ++ [mkdir_event d])%list
    /\ add_dirs w self1 paths labels label_dirs tr1
       = ((tr1 ++ [mkdir_event d])%list,
          match answer w tr1 execute_cmd
                  [Leaf ("mkdir -p " ++ str_join " " (flatten (Dict d) []))]
          with
          | Some e => inl e
          | None => inr self1
          end).
Proof.
  rewrite add_dirs_run. cbv zeta. intro H.
  injection H as Htr Hself.
  destruct (answer w tr execute_cmd _); [discriminate|].
  injection Hself as <-.
  eexists. split; [reflexivity|]. split; [symmetry; exact Htr|].
  rewrite add_dirs_run. reflexivity.
Qed.

Example example_namer_built :
  __init__ "/data/sub-01_bold.nii.gz" "/data/sub-01_T1w.nii.gz"
    "/atlas/MNI152_res-2mm_T1w.nii.gz" "/out" = inr example_namer.
Proof. reflexivity. Qed.

Lemma add_dirs_idempotent_witness :
  let d := build_dirs "/out/sub-01" paths ["/atlas/desikan.nii.gz"]
             label_dirs in
  let self1 := set_dirs example_namer d in
  exists d',
    dirs self1 = Some d'
    /\ [mkdir_event d] = ([] ++ [mkdir_event d'])%list
    /\ add_dirs quiet_world self1 paths (LabelList ["/atlas/desikan.nii.gz"])
         label_dirs [mkdir_event d]
       = (([mkdir_event d] ++ [mkdir_event d'])%list, inr self1).
Proof.
  exact (add_dirs_idempotent quiet_world example_namer _ paths
           (LabelList ["/atlas/desikan.nii.gz"]) label_dirs [] _ eq_refl).
Defined.

(** ** The pipeline boundary *)

(** C1 as stated fails: an interrupt during preprocessing is raised by
    the worker and leaves the pipeline function as well. *)
Lemma pipeline_counterexample :
  snd (example_worker interrupted_world []) = inl KeyboardInterrupt
  /\ snd (example_pipeline interrupted_world []) = inl KeyboardInterrupt.
Proof. split; vm_compute; reflexivity. Qed.

(** C1, amended: an exception of the worker that is an instance of
    [Exception] is caught, its traceback is printed and the pipeline
    function returns; an exception outside [Exception] ([SystemExit],
    [KeyboardInterrupt], [GeneratorExit]) propagates. *)
Theorem pipeline_catches_Exception (w : world)
        (func t1w atlas atlas_brain atlas_mask lv_mask : string)
        (labels : labels_arg) (outdir : string)
        (clean : bool) (stc : option string) (fmt : string)
        (tr tr' : list event) (e : exn) :
  ndmg_func_worker w func t1w atlas atlas_brain atlas_mask lv_mask
    labels outdir clean stc fmt tr = (tr', inl e) ->
  ndmg_func_pipeline w func t1w atlas atlas_brain atlas_mask lv_mask
    labels outdir clean stc fmt tr
  = if isinstance_Exception e
    then ((tr' ++ [Printed (format_exc e)])%list, inr tt)
    else (tr', inl e).
Proof.
  intro H. unfold ndmg_func_pipeline. rewrite H.
  destruct (isinstance_Exception e); reflexivity.
Qed.

Lemma pipeline_catches_Exception_witness :
  example_pipeline quiet_world []
  = ((fst (example_worker quiet_world [])
        ++ [Printed (format_exc (NameError "label_name"))])%list, inr tt).
Proof.
  apply (pipeline_catches_Exception quiet_world
           "/data/sub-01_bold.nii.gz" "/data/sub-01_T1w.nii.gz"
           "/atlas/MNI152_res-2mm_T1w.nii.gz"
           "/atlas/MNI152_res-2mm_brain.nii.gz"
           "/atlas/MNI152_res-2mm_mask.nii.gz" "/atlas/lv_mask.nii.gz"
           (LabelList ["/atlas/desikan.nii.gz"]) "/out" false None "gpickle"
           [] (fst (example_worker quiet_world []))
           (NameError "label_name")).
  vm_compute. reflexivity.
Defined.

(** The pipeline function never lets an instance of [Exception]
    through. *)
Lemma pipeline_raises_no_Exception (w : world)
      (func t1w atlas atlas_brain atlas_mask lv_mask : string)
      (labels : labels_arg) (outdir : string)
      (clean : bool) (stc : option string) (fmt : string)
      (tr tr' : list event) (e : exn) :
  ndmg_func_pipeline w func t1w atlas atlas_brain atlas_mask lv_mask
    labels outdir clean stc fmt tr = (tr', inl e) ->
  isinstance_Exception e = false.
Proof.
  unfold ndmg_func_pipeline.
  destruct (ndmg_func_worker _ _ _ _ _ _ _ _ _ _ _ _ _) as [tr0 [e0|[]]].
  - destruct (isinstance_Exception e0) eqn:E; cbn; intro H.
    + discriminate.
    + injection H as _ <-. exact E.
  - discriminate.
Qed.

(** ** [main] *)

(** C6: provided the star import binds [sys] to the module (the script
    imports it in no other way), [main] ends in [sys.exit] with a
    message, hence with exit status 1, before anything is printed or
    run, when the STC mode is [file] and the STC file option is absent
    or names no file. *)
Theorem main_exits_on_missing_stc_file (w : world) (result : arguments)
        (tr : list event) :
  star_import w "sys" = Some (PyModule "sys") ->
  arg_stc result = "file" ->
  (arg_stc_file result = None
   \/ exists f, arg_stc_file result = Some f /\ isfile w f = false) ->
  exists msg,
    main w result tr = (tr, inl (SystemExit (ExitMsg msg)))
    /\ exit_status (snd (main w result tr)) = 1.
Proof.
  intros Sys Stc File.
  assert (E : forall msg, sys_exit w msg tr
                          = (tr, inl (SystemExit (ExitMsg msg)))).
  { intro msg. unfold sys_exit, mbind, lift, lookup_global.
    rewrite Sys. reflexivity. }
  assert (X : exists msg,
             main w result tr = (tr, inl (SystemExit (ExitMsg msg)))).
  { unfold main. rewrite Stc. cbn [String.eqb Ascii.eqb Bool.eqb opt_eqb].
    destruct File as [F | (f & F & I)]; rewrite F.
    - eexists. unfold mbind at 1 2. rewrite E. reflexivity.
    - rewrite I. cbn [negb]. eexists. unfold mbind at 1 2. rewrite E.
      reflexivity. }
  destruct X as [msg X]. exists msg. split; [exact X|].
  rewrite X. reflexivity.
Qed.

Lemma main_exits_on_missing_stc_file_witness :
  exists msg,
    main world_with_sys example_arguments []
    = ([], inl (SystemExit (ExitMsg msg)))
    /\ exit_status (snd (main world_with_sys example_arguments [])) = 1.
Proof.
  apply (main_exits_on_missing_stc_file world_with_sys example_arguments []).
  - reflexivity.
  - reflexivity.
  - left. reflexivity.
Defined.

(** Without [sys] among the names of the star import the same run ends
    in a NameError instead. *)
Lemma main_without_sys (w : world) (result : arguments) (tr : list event) :
  star_import w "sys" = None ->
  arg_stc result = "file" ->
  arg_stc_file result = None ->
  main w result tr = (tr, inl (NameError "sys")).
Proof.
  intros Sys Stc File. unfold main. rewrite Stc, File.
  cbn [String.eqb Ascii.eqb Bool.eqb opt_eqb].
  unfold mbind at 1 2. unfold sys_exit, mbind, lift, lookup_global.
  rewrite Sys. reflexivity.
Qed.

(** ** Traces of the worker *)


Lemma emits_ret {A} (P : event -> bool) (a : A) : emits P (mret a).
Proof.
  intros tr tr' r H. injection H as <- _. exists [].
  rewrite app_nil_r. split; reflexivity.
Qed.

Lemma emits_lift {A} (P : event -> bool) (x : result A) : emits P (lift x).
Proof.
  intros tr tr' r H. injection H as <- _. exists [].
  rewrite app_nil_r. split; reflexivity.
Qed.

Lemma emits_print (P : event -> bool) (text : string) :
  P (Printed text) = true -> emits P (print text).
Proof.
  intros Pe tr tr' r H. injection H as <- _. exists [Printed text].
  split; [reflexivity|]. cbn. rewrite Pe. reflexivity.
Qed.

Lemma emits_extern (P : event -> bool) (w : world) (c : call)
      (args : list (pytree string)) :
  P (Called c args) = true -> emits P (extern w c args).
Proof.
  intros Pe tr tr' r H. injection H as <- _. exists [Called c args].
  split; [reflexivity|]. cbn. rewrite Pe. reflexivity.
Qed.

Lemma emits_bind {A B} (P : event -> bool) (m : M A) (f : A -> M B) :
  emits P m -> (forall a, emits P (f a)) -> emits P (mbind m f).
Proof.
  intros Hm Hf tr tr' r H. unfold mbind in H.
  destruct (m tr) as [tr1 [e|a]] eqn:E.
  - injection H as <- _. exact (Hm _ _ _ E).
  - destruct (Hm _ _ _ E) as (new1 & -> & P1).
    destruct (Hf a _ _ _ H) as (new2 & -> & P2).
    exists (new1 ++ new2)%list. rewrite app_assoc, forallb_app, P1, P2.
    split; reflexivity.
Qed.

(** What follows a statement that raises is not run. *)
Lemma emits_raise {A B} (P : event -> bool) (e : exn) (f : A -> M B) :
  emits P (mbind (lift (inl e)) f).
Proof.
  intros tr tr' r H. injection H as <- _. exists [].
  rewrite app_nil_r. split; reflexivity.
Qed.

Lemma emits_for_each {A} (P : event -> bool) (l : list A)
      (body : A -> M unit) :
  (forall x, emits P (body x)) -> emits P (for_each l body).
Proof.
  intro Hb. induction l as [|x l IH]; cbn [for_each].
  - apply emits_ret.
  - apply emits_bind; [apply Hb | intros _; exact IH].
Qed.

Lemma emits_add_dirs (P : event -> bool) (w : world) (self : name_resource)
      (paths : list (string * string)) (labels : labels_arg)
      (label_dirs : list string) :
  (forall d, P (mkdir_event d) = true) ->
  emits P (add_dirs w self paths labels label_dirs).
Proof.
  intros Pe tr tr' r H. rewrite add_dirs_run in H. cbv zeta in H.
  injection H as <- _. eexists. split; [reflexivity|].
  cbn. rewrite Pe. reflexivity.
Qed.

Ltac emits_step :=
  first
    [ apply emits_ret
    | apply emits_lift
    | apply emits_print; reflexivity
    | apply emits_extern; reflexivity
    | apply emits_add_dirs; intros; reflexivity
    | apply emits_bind; [|intros] ].

(** The stages add no event of the ROI loop, of the saving of the
    statistics or of the cleanup. *)
Lemma stages_emit (w : world)
      (func t1w atlas atlas_brain atlas_mask lv_mask : string)
      (labels : labels_arg) (outdir : string)
      (clean : bool) (stc : option string) (fmt : string) :
  emits (fun e => negb (after_stages e))
    (stages w func t1w atlas atlas_brain atlas_mask lv_mask
       labels outdir clean stc fmt).
Proof.
  unfold stages. cbv zeta.
  repeat emits_step.
  destruct clean; cbn [negb]; repeat emits_step.
Qed.

(** ** The stages return when the constructor and the external
       operations do *)


Lemma returns_ret {A} (a : A) (Q : A -> Prop) : Q a -> returns (mret a) Q.
Proof. intros q tr. exists tr, a. split; [reflexivity | exact q]. Qed.

Lemma returns_lift {A} (x : result A) (a : A) :
  x = inr a -> returns (lift x) (eq a).
Proof. intros -> tr. exists tr, a. split; reflexivity. Qed.

Lemma returns_print (text : string) : returns (print text) (fun _ => True).
Proof. intro tr. eexists _, tt. split; [reflexivity | exact I]. Qed.

Lemma returns_extern (w : world) (c : call) (args : list (pytree string)) :
  (forall tr, answer w tr c args = None) ->
  returns (extern w c args) (fun _ => True).
Proof.
  intros H tr. eexists _, tt. unfold extern. rewrite H.
  split; [reflexivity | exact I].
Qed.

Lemma returns_bind {A B} (m : M A) (f : A -> M B)
      (Q : A -> Prop) (R : B -> Prop) :
  returns m Q -> (forall a, Q a -> returns (f a) R) -> returns (mbind m f) R.
Proof.
  intros Hm Hf tr. destruct (Hm tr) as (tr1 & a & E & q).
  destruct (Hf a q tr1) as (tr2 & b & E2 & r).
  exists tr2, b. unfold mbind. rewrite E. split; [exact E2 | exact r].
Qed.

Lemma dict_get_set_same {V} (k : string) (v : V) (d : list (string * V)) :
  dict_get k (dict_set k v d) = inr v.
Proof.
  induction d as [|[k' v'] d IH]; cbn [dict_set dict_get].
  - rewrite String.eqb_refl. reflexivity.
  - destruct (String.eqb k k') eqn:E; cbn [dict_get]; rewrite ?E.
    + rewrite String.eqb_refl. reflexivity.
    + exact IH.
Qed.

Lemma dict_get_set_other {V} (k k' : string) (v : V) (d : list (string * V)) :
  String.eqb k k' = false -> dict_get k (dict_set k' v d) = dict_get k d.
Proof.
  intro N. induction d as [|[k0 v0] d IH]; cbn [dict_set dict_get].
  - rewrite N. reflexivity.
  - destruct (String.eqb k' k0) eqn:E; cbn [dict_get].
    + apply String.eqb_eq in E. subst k0. rewrite N. reflexivity.
    + destruct (String.eqb k k0); [reflexivity | exact IH].
Qed.

(** Each label has its entry in a label-level dictionary. *)
Lemma label_level_get (newdir : string) (labels : list string) (lab : string) :
  In lab labels ->
  dict_get (get_label lab) (label_level newdir labels)
  = inr (Leaf (join_from newdir [get_label lab])).
Proof.
  unfold label_level. generalize (@nil (string * pytree string)) as d0.
  intros d0 H.
  assert (G : In lab labels
              \/ dict_get (get_label lab) d0
                 = inr (Leaf (join_from newdir [get_label lab])))
    by (left; exact H).
  clear H. revert d0 G.
  induction labels as [|l labels IH]; intros d0 G; cbn [fold_left].
  - destruct G as [[]|G]. exact G.
  - apply IH. destruct G as [[->|G]|G].
    + right. apply dict_get_set_same.
    + left. exact G.
    + right. destruct (String.eqb (get_label lab) (get_label l)) eqn:E.
      * apply String.eqb_eq in E. rewrite <- E. apply dict_get_set_same.
      * rewrite (dict_get_set_other _ _ _ _ E). exact G.
Qed.

Lemma comprehension_ok {A B} (f : A -> result B) (l : list A) :
  (forall x, In x l -> exists y, f x = inr y) ->
  exists ys, comprehension f l = inr ys.
Proof.
  induction l as [|x l IH]; intro H; cbn [comprehension].
  - eexists. reflexivity.
  - destruct (H x (or_introl eq_refl)) as [y ->].
    destruct (IH (fun z Hz => H z (or_intror Hz))) as [ys ->].
    eexists. reflexivity.
Qed.

Lemma label_derivative (outdir : string) (labels : list string)
      (kwd path lab name : string) :
  In (kwd, path) [("ts_roi", "func/roi-timeseries");
                  ("conn", "func/connectomes")] ->
  In lab labels ->
  exists y,
    bind (dirs2 (build_dirs outdir paths labels label_dirs) "output" kwd)
      (fun level =>
         bind (getitem level (get_label lab))
           (fun folder => name_derivative folder name))
    = inr y.
Proof.
  intros K L.
  assert (D : dirs2 (build_dirs outdir paths labels label_dirs) "output" kwd
              = inr (Dict (label_level (join_from outdir [""; path]) labels))).
  { destruct K as [K|[K|[]]]; injection K as <- <-; reflexivity. }
  rewrite D. cbn [bind getitem]. rewrite (label_level_get _ _ _ L).
  eexists. reflexivity.
Qed.

Lemma returns_add_dirs (w : world) (self : name_resource)
      (paths : list (string * string)) (labels : labels_arg)
      (label_dirs : list string) :
  (forall tr c args, answer w tr c args = None) ->
  returns (add_dirs w self paths labels label_dirs)
    (eq (set_dirs self
           (build_dirs (get_outdir self) paths (as_label_list labels)
              label_dirs))).
Proof.
  intros H tr. rewrite add_dirs_run. cbv zeta. rewrite H.
  eexists _, _. split; reflexivity.
Qed.

Ltac returns_step H :=
  first
    [ apply returns_ret; exact I
    | apply returns_print
    | eapply returns_bind;
      [ first
          [ apply returns_print
          | apply returns_extern; intro; apply H
          | apply returns_add_dirs; exact H
          | apply returns_lift; reflexivity ]
      | first [ intros ? <- | intros ? _ ] ] ].

Ltac returns_labels :=
  match goal with
  | |- returns (mbind (lift (comprehension ?f ?l)) _) _ =>
      let ys := fresh "ys" in
      let E := fresh "E" in
      destruct (comprehension_ok f l) as [ys E];
      [ let x := fresh "x" in
        let Hx := fresh "Hx" in
        intros x Hx; eapply label_derivative;
        [ first [ left; reflexivity | right; left; reflexivity ]
        | exact Hx ]
      | eapply returns_bind;
        [ apply returns_lift; exact E | intros ? <- ] ]
  end.

(** When the constructor returns and every external operation returns,
    the stages return: nothing else in them can raise. *)
Lemma stages_return (w : world)
      (func t1w atlas atlas_brain atlas_mask lv_mask : string)
      (labels : labels_arg) (outdir : string)
      (clean : bool) (stc : option string) (fmt : string)
      (namer : name_resource) :
  __init__ func t1w atlas outdir = inr namer ->
  (forall tr c args, answer w tr c args = None) ->
  returns (stages w func t1w atlas atlas_brain atlas_mask lv_mask
             labels outdir clean stc fmt) (fun _ => True).
Proof.
  intros Init H. unfold stages. cbv zeta. rewrite Init.
  repeat returns_step H.
  eapply returns_bind with (Q := fun _ => True).
  { destruct clean; cbn [negb]; repeat returns_step H. }
  intros ? _.
  repeat returns_step H.
  returns_labels. returns_labels.
  repeat returns_step H.
Qed.

(** ** The ROI-timeseries loop *)

Lemma roi_loop_unbound (w : world) (labels roi_ts connectomes : list string)
      (nuis_func aligned_func aligned_t1w fmt : string) (tr : list event) :
  star_import w "label_name" = None ->
  roi_loop w labels roi_ts connectomes nuis_func aligned_func aligned_t1w
    fmt tr = (tr, inl (NameError "label_name")).
Proof.
  intro U. unfold roi_loop, mbind, lift, lookup_global. rewrite U.
  reflexivity.
Qed.

(** C2: with [label_name] bound nowhere, a worker whose stages before
    the ROI-timeseries loop return raises NameError at the loop, with
    the trace of the stages; this happens whenever the constructor and
    every external operation return.  On every run the worker raises,
    and the events it adds include no step of the loop, no graph
    construction, no saving of the statistics and no cleanup command. *)
Theorem worker_stops_at_roi_loop (w : world)
        (func t1w atlas atlas_brain atlas_mask lv_mask : string)
        (labels : labels_arg) (outdir : string)
        (clean : bool) (stc : option string) (fmt : string)
        (tr : list event) :
  star_import w "label_name" = None ->
  (forall tr1 v,
      stages w func t1w atlas atlas_brain atlas_mask lv_mask
        labels outdir clean stc fmt tr = (tr1, inr v) ->
      ndmg_func_worker w func t1w atlas atlas_brain atlas_mask lv_mask
        labels outdir clean stc fmt tr = (tr1, inl (NameError "label_name")))
  /\ (forall namer,
         __init__ func t1w atlas outdir = inr namer ->
         (forall tr0 c args, answer w tr0 c args = None) ->
         exists tr1,
           ndmg_func_worker w func t1w atlas atlas_brain atlas_mask lv_mask
             labels outdir clean stc fmt tr
           = (tr1, inl (NameError "label_name")))
  /\ (exists new e,
         ndmg_func_worker w func t1w atlas atlas_brain atlas_mask lv_mask
           labels outdir clean stc fmt tr = ((tr ++ new)%list, inl e)
         /\ forallb (fun ev => negb (after_stages ev)) new = true).
Proof.
  intro U.
  assert (A : forall tr1 v,
             stages w func t1w atlas atlas_brain atlas_mask lv_mask
               labels outdir clean stc fmt tr = (tr1, inr v) ->
             ndmg_func_worker w func t1w atlas atlas_brain atlas_mask lv_mask
               labels outdir clean stc fmt tr
             = (tr1, inl (NameError "label_name"))).
  { intros tr1 v S. unfold ndmg_func_worker, mbind. rewrite S.
    rewrite (roi_loop_unbound _ _ _ _ _ _ _ _ _ U). reflexivity. }
  split; [exact A|]. split.
  - intros namer Init H.
    destruct (stages_return w func t1w atlas atlas_brain atlas_mask lv_mask
                labels outdir clean stc fmt namer Init H tr)
      as (tr1 & v & S & _).
    exists tr1. exact (A _ _ S).
  - destruct (stages w func t1w atlas atlas_brain atlas_mask lv_mask
                labels outdir clean stc fmt tr) as [tr1 [e|v]] eqn:S.
    + destruct (stages_emit _ _ _ _ _ _ _ _ _ _ _ _ _ _ _ S)
        as (new & -> & P).
      exists new, e. split; [|exact P].
      unfold ndmg_func_worker, mbind. rewrite S. reflexivity.
    + destruct (stages_emit _ _ _ _ _ _ _ _ _ _ _ _ _ _ _ S)
        as (new & -> & P).
      exists new, (NameError "label_name"). split; [|exact P].
      exact (A _ _ eq_refl).
Qed.

Lemma worker_stops_at_roi_loop_witness :
  exists tr1,
    example_worker quiet_world [] = (tr1, inl (NameError "label_name")).
Proof.
  apply (proj1 (proj2 (worker_stops_at_roi_loop quiet_world
                         "/data/sub-01_bold.nii.gz" "/data/sub-01_T1w.nii.gz"
                         "/atlas/MNI152_res-2mm_T1w.nii.gz"
                         "/atlas/MNI152_res-2mm_brain.nii.gz"
                         "/atlas/MNI152_res-2mm_mask.nii.gz"
                         "/atlas/lv_mask.nii.gz"
                         (LabelList ["/atlas/desikan.nii.gz"]) "/out"
                         false None "gpickle" [] eq_refl))
           example_namer).
  - reflexivity.
  - reflexivity.
Defined.

Lemma emits_print_elapsed (P : event -> bool) (w : world) :
  (forall text, P (Printed text) = true) ->
  emits P (fun tr => print ("Execution took: " ++ elapsed w tr) tr).
Proof.
  intros Pe tr tr' r H. injection H as <- _. eexists [_].
  split; [reflexivity|]. cbn. rewrite Pe. reflexivity.
Qed.

(** Whatever the star import binds, the cleanup command is never run:
    the statement that builds it subscripts the [name_resource] object,
    which raises. *)
Lemma cleanup_never_runs (w : world)
      (func t1w atlas atlas_brain atlas_mask lv_mask : string)
      (labels : labels_arg) (outdir : string)
      (clean : bool) (stc : option string) (fmt : string) :
  emits (fun ev => negb (is_cleanup ev))
    (ndmg_func_worker w func t1w atlas atlas_brain atlas_mask lv_mask
       labels outdir clean stc fmt).
Proof.
  unfold ndmg_func_worker.
  apply emits_bind.
  { unfold stages. cbv zeta. repeat emits_step.
    destruct clean; cbn [negb]; repeat emits_step. }
  intro v. apply emits_bind.
  { unfold roi_loop. apply emits_bind; [apply emits_lift|].
    intros [name|names]; [apply emits_lift|].
    apply emits_for_each. intros [idx label]. unfold roi_step.
    repeat emits_step. }
  intros _. unfold finish.
  apply emits_bind; [apply emits_extern; reflexivity|]. intros _.
  apply emits_bind; [apply emits_print_elapsed; reflexivity|]. intros _.
  apply emits_raise.
Qed.

(* ================================================================== *)
(** * Further properties *)

(** ** The worker never comes to its end *)

Lemma emits_elapsed_not_finishing (w : world) :
  emits (fun ev => negb (finishing ev))
    (fun tr => print ("Execution took: " ++ elapsed w tr) tr).
Proof.
  intros tr tr' r H. injection H as <- _. eexists [_].
  split; reflexivity.
Qed.

Lemma worker_emits_nothing_finishing (w : world)
      (func t1w atlas atlas_brain atlas_mask lv_mask : string)
      (labels : labels_arg) (outdir : string)
      (clean : bool) (stc : option string) (fmt : string) :
  emits (fun ev => negb (finishing ev))
    (ndmg_func_worker w func t1w atlas atlas_brain atlas_mask lv_mask
       labels outdir clean stc fmt).
Proof.
  unfold ndmg_func_worker.
  apply emits_bind.
  { unfold stages. cbv zeta. repeat emits_step.
    destruct clean; cbn [negb]; repeat emits_step. }
  intro v. apply emits_bind.
  { unfold roi_loop. apply emits_bind; [apply emits_lift|].
    intros [name|names]; [apply emits_lift|].
    apply emits_for_each. intros [idx label]. unfold roi_step.
    repeat emits_step. }
  intros _. unfold finish.
  apply emits_bind; [apply emits_extern; reflexivity|]. intros _.
  apply emits_bind; [apply emits_elapsed_not_finishing|]. intros _.
  apply emits_raise.
Qed.

Lemma finish_always_raises (w : world) (namer : name_resource)
      (qc_stats : string) (clean : bool) :
  always_raises (finish w namer qc_stats clean).
Proof.
  intro tr. unfold finish, mbind, extern, print, lift, instance_getitem, raise.
  destruct (answer w tr qa_save _); eexists _, _; reflexivity.
Qed.

(** The worker raises, and adds no finishing event. *)
Lemma worker_raises (w : world)
        (func t1w atlas atlas_brain atlas_mask lv_mask : string)
        (labels : labels_arg) (outdir : string)
        (clean : bool) (stc : option string) (fmt : string)
        (tr : list event) :
  exists new e,
    ndmg_func_worker w func t1w atlas atlas_brain atlas_mask lv_mask
      labels outdir clean stc fmt tr = ((tr ++ new)%list, inl e)
    /\ forallb (fun ev => negb (finishing ev)) new = true.
Proof.
  destruct (ndmg_func_worker w func t1w atlas atlas_brain atlas_mask lv_mask
              labels outdir clean stc fmt tr) as [tr' r] eqn:E.
  destruct (worker_emits_nothing_finishing _ _ _ _ _ _ _ _ _ _ _ _ _ _ _ E)
    as (new & -> & P).
  assert (R : exists e, r = inl e).
  { unfold ndmg_func_worker, mbind in E.
    destruct (stages _ _ _ _ _ _ _ _ _ _ _ _ tr) as [t1 [e1|v]].
    - injection E as _ <-. eexists; reflexivity.
    - destruct (roi_loop _ _ _ _ _ _ _ _ t1) as [t2 [e2|[]]].
      + injection E as _ <-. eexists; reflexivity.
      + destruct (finish_always_raises w (namer_of v) (qc_stats_of v)
                    clean t2) as (t3 & e3 & F).
        rewrite F in E. injection E as _ <-. eexists; reflexivity. }
  destruct R as [e ->]. exists new, e. split; [reflexivity | exact P].
Qed.

(** On every run, whatever the external operations do and whatever the
    star import binds, the worker raises: it never returns, never runs
    the cleanup command and never prints its last message. *)
Theorem worker_never_completes (w : world)
        (func t1w atlas atlas_brain atlas_mask lv_mask : string)
        (labels : labels_arg) (outdir : string)
        (clean : bool) (stc : option string) (fmt : string)
        (tr : list event) :
  exists new e,
    ndmg_func_worker w func t1w atlas atlas_brain atlas_mask lv_mask
      labels outdir clean stc fmt tr = ((tr ++ new)%list, inl e)
    /\ forallb (fun ev => negb (finishing ev)) new = true.
Proof.
  exact (worker_raises w func t1w atlas atlas_brain atlas_mask lv_mask
           labels outdir clean stc fmt tr).
Qed.

(** ** What the worker itself raises are instances of [Exception] *)

Lemma fails_only_ret {A} (P : exn -> bool) (a : A) : fails_only P (inr a).
Proof. intros e H. discriminate. Qed.

Lemma fails_only_raise {A} (P : exn -> bool) (e : exn) :
  P e = true -> fails_only P (@raise A e).
Proof. intros Pe e' H. injection H as <-. exact Pe. Qed.

Lemma fails_only_bind {A B} (P : exn -> bool) (r : result A)
      (f : A -> result B) :
  fails_only P r -> (forall a, fails_only P (f a)) -> fails_only P (bind r f).
Proof.
  intros Hr Hf e H. destruct r as [e0|a]; cbn in H.
  - injection H as <-. apply Hr. reflexivity.
  - exact (Hf a e H).
Qed.

Lemma fails_only_dict_get {V} (k : string) (d : list (string * V)) :
  fails_only isinstance_Exception (dict_get k d).
Proof.
  induction d as [|[k' v] d IH]; cbn [dict_get].
  - apply fails_only_raise. reflexivity.
  - destruct (String.eqb k k'); [apply fails_only_ret | exact IH].
Qed.

Lemma fails_only_getitem {A} (t : pytree A) (k : string) :
  fails_only isinstance_Exception (getitem t k).
Proof.
  destruct t; cbn [getitem];
    [apply fails_only_raise; reflexivity | apply fails_only_dict_get].
Qed.

Lemma fails_only_dirs2 (d : list (string * pytree string)) (a b : string) :
  fails_only isinstance_Exception (dirs2 d a b).
Proof.
  apply fails_only_bind; [apply fails_only_dict_get|].
  intro x. apply fails_only_getitem.
Qed.

Lemma fails_only_name_derivative (folder : pytree string) (name : string) :
  fails_only isinstance_Exception (name_derivative folder name).
Proof.
  destruct folder; cbn [name_derivative os_path.join ret];
    [apply fails_only_ret|].
  destruct (startswith "/" name); [apply fails_only_ret|].
  apply fails_only_raise. reflexivity.
Qed.

Lemma fails_only_init (modf t1wf tempf opath : string) :
  fails_only isinstance_Exception (__init__ modf t1wf tempf opath).
Proof.
  destruct (re.search (token_pattern "sub-") modf) as [m|] eqn:E.
  - destruct (init_some modf t1wf tempf opath m E) as (self & -> & _).
    apply fails_only_ret.
  - rewrite (init_none modf t1wf tempf opath E).
    apply fails_only_raise. reflexivity.
Qed.

Lemma fails_only_index {A} (l : list A) (i : nat) :
  fails_only isinstance_Exception (index l i).
Proof.
  unfold index. destruct (nth_error l i);
    [apply fails_only_ret | apply fails_only_raise; reflexivity].
Qed.

Lemma fails_only_comprehension {A B} (f : A -> result B) (l : list A) :
  (forall x, fails_only isinstance_Exception (f x)) ->
  fails_only isinstance_Exception (comprehension f l).
Proof.
  intro Hf. induction l as [|x l IH]; cbn [comprehension].
  - apply fails_only_ret.
  - apply fails_only_bind; [apply Hf|]. intro y.
    apply fails_only_bind; [exact IH|]. intro ys. apply fails_only_ret.
Qed.

Lemma raises_only_ret {A} (P : exn -> bool) (a : A) : raises_only P (mret a).
Proof. intros tr tr' e H. discriminate. Qed.

Lemma raises_only_print (P : exn -> bool) (text : string) :
  raises_only P (print text).
Proof. intros tr tr' e H. discriminate. Qed.

Lemma raises_only_lift {A} (P : exn -> bool) (r : result A) :
  fails_only P r -> raises_only P (lift r).
Proof. intros Hr tr tr' e H. injection H as _ ->. apply Hr. reflexivity. Qed.

Lemma raises_only_extern (w : world) (c : call) (args : list (pytree string)) :
  raises_Exceptions w ->
  raises_only isinstance_Exception (extern w c args).
Proof.
  intros Hw tr tr' e H. unfold extern in H.
  destruct (answer w tr c args) as [e0|] eqn:E; [|discriminate].
  injection H as _ <-. exact (Hw _ _ _ _ E).
Qed.

Lemma raises_only_bind {A B} (P : exn -> bool) (m : M A) (f : A -> M B) :
  raises_only P m -> (forall a, raises_only P (f a)) ->
  raises_only P (mbind m f).
Proof.
  intros Hm Hf tr tr' e H. unfold mbind in H.
  destruct (m tr) as [t1 [e1|a]] eqn:E.
  - injection H as _ <-. exact (Hm _ _ _ E).
  - exact (Hf a _ _ _ H).
Qed.

Lemma raises_only_for_each {A} (P : exn -> bool) (l : list A)
      (body : A -> M unit) :
  (forall x, raises_only P (body x)) -> raises_only P (for_each l body).
Proof.
  intro Hb. induction l as [|x l IH]; cbn [for_each].
  - apply raises_only_ret.
  - apply raises_only_bind; [apply Hb | intros _; exact IH].
Qed.

Lemma raises_only_add_dirs (w : world) (self : name_resource)
      (paths : list (string * string)) (labels : labels_arg)
      (label_dirs : list string) :
  raises_Exceptions w ->
  raises_only isinstance_Exception (add_dirs w self paths labels label_dirs).
Proof.
  intros Hw tr tr' e H. rewrite add_dirs_run in H. cbv zeta in H.
  destruct (answer w tr execute_cmd _) as [e0|] eqn:E; [|discriminate].
  injection H as _ <-. exact (Hw _ _ _ _ E).
Qed.

Ltac fails_step :=
  first
    [ apply fails_only_ret
    | apply fails_only_raise; reflexivity
    | apply fails_only_dict_get
    | apply fails_only_getitem
    | apply fails_only_dirs2
    | apply fails_only_name_derivative
    | apply fails_only_init
    | apply fails_only_index
    | apply fails_only_comprehension; intros
    | apply fails_only_bind; [|intros] ].

Ltac raises_step Hw :=
  first
    [ apply raises_only_ret
    | apply raises_only_print
    | apply raises_only_extern; exact Hw
    | apply raises_only_add_dirs; exact Hw
    | apply raises_only_lift; repeat fails_step
    | apply raises_only_bind; [|intros] ].

Lemma worker_raises_Exceptions (w : world)
      (func t1w atlas atlas_brain atlas_mask lv_mask : string)
      (labels : labels_arg) (outdir : string)
      (clean : bool) (stc : option string) (fmt : string) :
  raises_Exceptions w ->
  raises_only isinstance_Exception
    (ndmg_func_worker w func t1w atlas atlas_brain atlas_mask lv_mask
       labels outdir clean stc fmt).
Proof.
  intro Hw. unfold ndmg_func_worker.
  apply raises_only_bind.
  { unfold stages. cbv zeta. repeat raises_step Hw.
    all: try (destruct clean; cbn [negb]; repeat raises_step Hw).
    all: unfold get_dirs; destruct (dirs _); repeat fails_step. }
  intro v. apply raises_only_bind.
  { unfold roi_loop. apply raises_only_bind.
    - apply raises_only_lift. unfold lookup_global.
      destruct (star_import w "label_name"); repeat fails_step.
    - intros [name|names]; [raises_step Hw|].
      apply raises_only_for_each. intros [idx label]. unfold roi_step.
      repeat raises_step Hw. }
  intros _. unfold finish.
  apply raises_only_bind; [raises_step Hw|]. intros _.
  apply raises_only_bind.
  { intros tr tr' e H. discriminate. }
  intros _.
  apply raises_only_bind.
  { apply raises_only_lift. unfold instance_getitem. repeat fails_step. }
  intro tmp. repeat raises_step Hw.
  all: destruct clean; repeat raises_step Hw.
  all: unfold instance_getitem; repeat fails_step.
Qed.


(** When the external operations raise nothing but instances of
    [Exception], the pipeline function returns on every input: the
    worker, run from the same trace, stops with an exception [e] after
    the events [new]; the pipeline has these same events, then prints
    the traceback of that same [e], and returns.  [e] is an instance of
    [Exception], and the worker's last message is not among [new]. *)
Theorem pipeline_always_returns (w : world)
        (func t1w atlas atlas_brain atlas_mask lv_mask : string)
        (labels : labels_arg) (outdir : string)
        (clean : bool) (stc : option string) (fmt : string)
        (tr : list event) :
  raises_Exceptions w ->
  exists new e,
    ndmg_func_worker w func t1w atlas atlas_brain atlas_mask lv_mask
      labels outdir clean stc fmt tr
    = ((tr ++ new)%list, inl e)
    /\ ndmg_func_pipeline w func t1w atlas atlas_brain atlas_mask lv_mask
         labels outdir clean stc fmt tr
       = ((tr ++ new ++ [Printed (format_exc e)])%list, inr tt)
    /\ isinstance_Exception e = true
    /\ forallb (fun ev => negb (finishing ev)) new = true.
Proof.
  intro Hw.
  destruct (worker_raises w func t1w atlas atlas_brain atlas_mask
              lv_mask labels outdir clean stc fmt tr) as (new & e & E & P).
  pose proof (worker_raises_Exceptions w func t1w atlas atlas_brain
                atlas_mask lv_mask labels outdir clean stc fmt Hw _ _ _ E)
    as X.
  exists new, e. split; [exact E|]. split; [|split; [exact X | exact P]].
  unfold ndmg_func_pipeline. rewrite E, X. unfold print.
  rewrite <- app_assoc. reflexivity.
Qed.

Lemma pipeline_always_returns_witness :
  exists new e,
    example_worker failing_world [] = (([] ++ new)%list, inl e)
    /\ example_pipeline failing_world []
       = (([] ++ new ++ [Printed (format_exc e)])%list, inr tt)
    /\ isinstance_Exception e = true
    /\ forallb (fun ev => negb (finishing ev)) new = true.
Proof.
  apply (pipeline_always_returns failing_world
           "/data/sub-01_bold.nii.gz" "/data/sub-01_T1w.nii.gz"
           "/atlas/MNI152_res-2mm_T1w.nii.gz"
           "/atlas/MNI152_res-2mm_brain.nii.gz"
           "/atlas/MNI152_res-2mm_mask.nii.gz" "/atlas/lv_mask.nii.gz"
           (LabelList ["/atlas/desikan.nii.gz"]) "/out" false None "gpickle"
           []).
  intros tr c args e H. destruct c; cbn in H; try discriminate.
  injection H as <-. reflexivity.
Defined.



(** ** Lookups in [dirs] *)

Lemma dict_get_missing {V} (k : string) (d : list (string * V)) :
  ~ In k (map fst d) -> dict_get k d = inl (KeyError k).
Proof.
  induction d as [|[k' v] d IH]; cbn [dict_get map fst In]; intro N.
  - reflexivity.
  - destruct (String.eqb_spec k k') as [->|_].
    + exfalso. apply N. left. reflexivity.
    + apply IH. intro H. apply N. right. exact H.
Qed.

(** The value that [add_dirs] stores for one item of [paths]. *)
Lemma add_paths_other (outdir addstr : string) (paths : list (string * string))
      (labels label_dirs : list string) (kwd : string) :
  forall d, ~ In kwd (map fst paths) ->
  dict_get kwd (add_paths outdir addstr paths labels label_dirs d)
  = dict_get kwd d.
Proof.
  unfold add_paths.
  induction paths as [|[k p] paths IH]; intros d N; cbn [fold_left].
  - reflexivity.
  - cbn [map fst In] in N. rewrite IH by (intro H; apply N; right; exact H).
    assert (E : String.eqb kwd k = false).
    { apply String.eqb_neq. intro H. apply N. left. symmetry. exact H. }
    destruct (in_list k label_dirs); apply dict_get_set_other; exact E.
Qed.

Lemma add_paths_get (outdir addstr : string) (paths : list (string * string))
      (labels label_dirs : list string) (kwd path : string) :
  forall d, NoDup (map fst paths) -> In (kwd, path) paths ->
  dict_get kwd (add_paths outdir addstr paths labels label_dirs d)
  = inr (if in_list kwd label_dirs
         then Dict (label_level (join_from outdir [addstr; path]) labels)
         else Leaf (join_from outdir [addstr; path])).
Proof.
  induction paths as [|[k p] paths IH]; intros d U H; [destruct H|].
  cbn [map fst] in U. inversion U as [|? ? N U']; subst.
  destruct H as [H|H].
  - injection H as -> ->.
    change (add_paths outdir addstr ((kwd, path) :: paths) labels label_dirs d)
      with (add_paths outdir addstr paths labels label_dirs
              (if in_list kwd label_dirs
               then dict_set kwd
                      (Dict (label_level (join_from outdir [addstr; path])
                               labels)) d
               else dict_set kwd (Leaf (join_from outdir [addstr; path])) d)).
    rewrite add_paths_other by exact N.
    destruct (in_list kwd label_dirs); apply dict_get_set_same.
  - change (add_paths outdir addstr ((k, p) :: paths) labels label_dirs d)
      with (add_paths outdir addstr paths labels label_dirs
              (if in_list k label_dirs
               then dict_set k
                      (Dict (label_level (join_from outdir [addstr; p])
                               labels)) d
               else dict_set k (Leaf (join_from outdir [addstr; p])) d)).
    apply IH; assumption.
Qed.

Lemma build_dirs_level (outdir : string) (paths : list (string * string))
      (labels label_dirs : list string) (dirt : string) :
  In dirt ["output"; "tmp"; "qa"] ->
  dict_get dirt (build_dirs outdir paths labels label_dirs)
  = inr (Dict (add_paths outdir (addstr_of dirt) paths labels label_dirs
                 [("base", Leaf (join_from outdir [addstr_of dirt]))])).
Proof.
  intros [<-|[<-|[<-|[]]]]; reflexivity.
Qed.

(** After [add_dirs], [dirs[dirt][kwd]] exists for each of the three
    directory types and each key of [paths] (a dictionary: its keys are
    distinct): it is the path [outdir/addstr/path], or, for a key of
    [label_dirs], a dictionary that holds [outdir/addstr/path/labname]
    under the label name of every label. *)
Theorem dirs_lookup (w : world) (self self1 : name_resource)
        (paths : list (string * string)) (labels : labels_arg)
        (label_dirs : list string) (tr tr1 : list event)
        (dirt kwd path : string) :
  add_dirs w self paths labels label_dirs tr = (tr1, inr self1) ->
  NoDup (map fst paths) ->
  In dirt ["output"; "tmp"; "qa"] ->
  In (kwd, path) paths ->
  let newdir := join_from (get_outdir self) [addstr_of dirt; path] in
  exists d,
    dirs self1 = Some d
    /\ if in_list kwd label_dirs
       then exists level,
           dirs2 d dirt kwd = inr (Dict level)
           /\ forall lab, In lab (as_label_list labels) ->
                dict_get (get_label lab) level
                = inr (Leaf (join_from newdir [get_label lab]))
       else dirs2 d dirt kwd = inr (Leaf newdir).
Proof.
  intros Run U Hd Hk newdir. rewrite add_dirs_run in Run. cbv zeta in Run.
  injection Run as _ Run.
  destruct (answer w tr execute_cmd _); [discriminate|].
  injection Run as <-. eexists. split; [reflexivity|].
  unfold dirs2. rewrite (build_dirs_level _ _ _ _ _ Hd). cbn [bind getitem].
  rewrite (add_paths_get _ _ _ _ _ _ _ _ U Hk).
  destruct (in_list kwd label_dirs).
  - eexists. split; [reflexivity|]. intros lab L.
    apply label_level_get, L.
  - reflexivity.
Qed.

Lemma dirs_lookup_witness :
  let d := build_dirs "/out/sub-01" paths ["/atlas/desikan.nii.gz"]
             label_dirs in
  exists d',
    dirs (set_dirs example_namer d) = Some d'
    /\ exists level,
        dirs2 d' "tmp" "conn" = inr (Dict level)
        /\ forall lab, In lab ["/atlas/desikan.nii.gz"] ->
             dict_get (get_label lab) level
             = inr (Leaf (join_from
                            (join_from "/out/sub-01" ["tmp"; "func/connectomes"])
                            [get_label lab])).
Proof.
  apply (dirs_lookup quiet_world example_namer _ paths
           (LabelList ["/atlas/desikan.nii.gz"]) label_dirs []
           [mkdir_event (build_dirs "/out/sub-01" paths
                           ["/atlas/desikan.nii.gz"] label_dirs)]
           "tmp" "conn" "func/connectomes").
  - reflexivity.
  - repeat constructor; cbn; intuition discriminate.
  - right. left. reflexivity.
  - cbn. auto 12.
Defined.

(** After [add_dirs], a key that [paths] does not have, other than
    [base], is missing from each of the three dictionaries: the lookup
    [dirs[dirt][kwd]] raises KeyError. *)
Theorem dirs_lookup_missing (w : world) (self self1 : name_resource)
        (paths : list (string * string)) (labels : labels_arg)
        (label_dirs : list string) (tr tr1 : list event)
        (dirt kwd : string) :
  add_dirs w self paths labels label_dirs tr = (tr1, inr self1) ->
  In dirt ["output"; "tmp"; "qa"] ->
  ~ In kwd (map fst paths) ->
  kwd <> "base" ->
  exists d,
    dirs self1 = Some d
    /\ dirs2 d dirt kwd = inl (KeyError kwd).
Proof.
  intros Run Hd N B. rewrite add_dirs_run in Run. cbv zeta in Run.
  injection Run as _ Run.
  destruct (answer w tr execute_cmd _); [discriminate|].
  injection Run as <-. eexists. split; [reflexivity|].
  unfold dirs2. rewrite (build_dirs_level _ _ _ _ _ Hd).
  cbn [bind getitem]. rewrite add_paths_other by exact N.
  cbn [dict_get]. destruct (String.eqb_spec kwd "base"); [contradiction|].
  reflexivity.
Qed.

Lemma dirs_lookup_missing_witness :
  let d := build_dirs "/out/sub-01" paths ["/atlas/desikan.nii.gz"]
             label_dirs in
  exists d',
    dirs (set_dirs example_namer d) = Some d'
    /\ dirs2 d' "output" "graphs" = inl (KeyError "graphs").
Proof.
  apply (dirs_lookup_missing quiet_world example_namer _ paths
           (LabelList ["/atlas/desikan.nii.gz"]) label_dirs []
           [mkdir_event (build_dirs "/out/sub-01" paths
                           ["/atlas/desikan.nii.gz"] label_dirs)]
           "output" "graphs").
  - reflexivity.
  - left. reflexivity.
  - cbn. intuition discriminate.
  - discriminate.
Defined.

(** ** The directories handed out are the directories made *)

Lemma leaves_dict_get {A} (k : string) (d : list (string * pytree A))
      (t : pytree A) :
  dict_get k d = inr t -> incl (leaves t) (leaves (Dict d)).
Proof.
  induction d as [|[k' v] d IH]; cbn [dict_get]; [discriminate|].
  change (leaves (Dict ((k', v) :: d))) with (leaves v ++ leaves (Dict d))%list.
  destruct (String.eqb k k').
  - intro H. injection H as <-. apply incl_appl, incl_refl.
  - intro H. apply incl_appr, IH, H.
Qed.

(** When [add_dirs] returns, its one event is the [mkdir -p] command
    for the list [newdirs], and every path that a lookup in [dirs]
    gives, [dirs[dirt][kwd]] or [dirs[dirt][kwd][lab]], is in that
    list: no directory is handed out that was not given to [mkdir]. *)
Theorem dirs_are_made (w : world) (self self1 : name_resource)
        (paths : list (string * string)) (labels : labels_arg)
        (label_dirs : list string) (tr tr1 : list event) :
  add_dirs w self paths labels label_dirs tr = (tr1, inr self1) ->
  exists d newdirs,
    dirs self1 = Some d
    /\ tr1 = (tr ++ [Called execute_cmd
                       [Leaf ("mkdir -p " ++ str_join " " newdirs)%string]])%list
    /\ (forall dirt kwd p, dirs2 d dirt kwd = inr (Leaf p) -> In p newdirs)
    /\ (forall dirt kwd level lab p,
           dirs2 d dirt kwd = inr (Dict level) ->
           dict_get lab level = inr (Leaf p) -> In p newdirs).
Proof.
  intros Run. rewrite add_dirs_run in Run. cbv zeta in Run.
  injection Run as <- Run.
  destruct (answer w tr execute_cmd _); [discriminate|].
  injection Run as <-.
  set (d := build_dirs (get_outdir self) paths (as_label_list labels)
              label_dirs).
  exists d, (flatten (Dict d) []). split; [reflexivity|].
  split; [reflexivity|].
  rewrite flatten_leaves. cbn [app].
  assert (L2 : forall dirt kwd t, dirs2 d dirt kwd = inr t ->
                                  incl (leaves t) (leaves (Dict d))).
  { intros dirt kwd t. unfold dirs2.
    destruct (dict_get dirt d) as [e|x] eqn:E1; cbn [bind]; [discriminate|].
    destruct x as [a|items]; cbn [getitem]; [discriminate|].
    intro E2. apply (incl_tran (leaves_dict_get _ _ _ E2)).
    exact (leaves_dict_get _ _ _ E1). }
  split.
  - intros dirt kwd p H. apply (L2 _ _ _ H). left. reflexivity.
  - intros dirt kwd level lab p H G. apply (L2 _ _ _ H).
    apply (leaves_dict_get _ _ _ G). left. reflexivity.
Qed.

Lemma dirs_are_made_witness :
  let d0 := build_dirs "/out/sub-01" paths ["/atlas/desikan.nii.gz"]
              label_dirs in
  exists d newdirs,
    dirs (set_dirs example_namer d0) = Some d
    /\ [mkdir_event d0]
       = ([] ++ [Called execute_cmd
                   [Leaf ("mkdir -p " ++ str_join " " newdirs)%string]])%list
    /\ (forall dirt kwd p, dirs2 d dirt kwd = inr (Leaf p) -> In p newdirs)
    /\ (forall dirt kwd level lab p,
           dirs2 d dirt kwd = inr (Dict level) ->
           dict_get lab level = inr (Leaf p) -> In p newdirs).
Proof.
  apply (dirs_are_made quiet_world example_namer _ paths
           (LabelList ["/atlas/desikan.nii.gz"]) label_dirs []
           [mkdir_event (build_dirs "/out/sub-01" paths
                           ["/atlas/desikan.nii.gz"] label_dirs)]).
  reflexivity.
Defined.

(** ** The shape of the tokens *)

Lemma lazy_underscore_shape (s r : string) :
  re.lazy underscore_next s = Some r ->
  exists x post,
    s = x ++ r /\ r = String "_" post
    /\ has_char "_" x = false /\ has_char newline x = false.
Proof.
  induction s as [|c s IH]; cbn [re.lazy]; [discriminate|].
  unfold underscore_next at 1. rewrite in_set_underscore.
  destruct (Ascii.eqb_spec "_" c) as [<-|U].
  - intro H. injection H as <-. exists "", s. repeat split.
  - unfold re.dot. destruct (Ascii.eqb_spec c newline) as [->|N];
      [discriminate|]. cbn [negb]. intro H.
    destruct (IH H) as (x & post & -> & -> & Ux & Nx).
    exists (String c x), post. cbn [append has_char].
    destruct (Ascii.eqb_spec "_" c); [contradiction|].
    destruct (Ascii.eqb_spec newline c) as [E|]; [symmetry in E; contradiction|].
    repeat split; assumption.
Qed.

Lemma match_here_shape (key s : string) (m : re.match_object) :
  re.match_here (token_pattern key) s = Some m ->
  exists x post,
    s = re.group m ++ String "_" post /\ re.group m = key ++ x
    /\ has_char "_" x = false /\ has_char newline x = false.
Proof.
  unfold re.match_here. rewrite match_rest_token.
  destruct (strip_prefix key s) as [s1|] eqn:E; [|discriminate].
  destruct (re.greedy (key_here key) s1); [discriminate|].
  destruct (re.lazy underscore_next s1) as [r|] eqn:L; [|discriminate].
  intro H. injection H as <-. cbn [re.group].
  destruct (lazy_underscore_shape _ _ L) as (x & post & -> & -> & U & N).
  apply strip_prefix_inv in E. subst s.
  rewrite <- append_assoc, take_app.
  exists x, post. rewrite append_assoc. repeat split; assumption.
Qed.

(** A match of a token pattern is a token of the string searched. *)
Lemma search_token (key s : string) (m : re.match_object) :
  re.search (token_pattern key) s = Some m ->
  token_of key s (re.group m).
Proof.
  induction s as [|c s IH]; cbn [re.search].
  - destruct (re.match_here (token_pattern key) "") as [m0|] eqn:E;
      [|discriminate].
    intro H. injection H as <-.
    destruct (match_here_shape _ _ _ E) as (x & post & S & G & U & N).
    exists "", x, post. repeat split; assumption.
  - destruct (re.match_here (token_pattern key) (String c s)) as [m0|] eqn:E.
    + intro H. injection H as <-.
      destruct (match_here_shape _ _ _ E) as (x & post & S & G & U & N).
      exists "", x, post. repeat split; assumption.
    + intro H. destruct (IH H) as (pre & x & post & -> & G & U & N).
      exists (String c pre), x, post. repeat split; assumption.
Qed.

Lemma init_inv (modf t1wf tempf opath : string) (self : name_resource) :
  __init__ modf t1wf tempf opath = inr self ->
  exists m, re.search (token_pattern "sub-") modf = Some m.
Proof.
  destruct (re.search (token_pattern "sub-") modf) as [m|] eqn:E.
  - intros _. exists m. reflexivity.
  - rewrite (init_none modf t1wf tempf opath E). discriminate.
Qed.

(** The fields of a constructed object are tokens. *)
Lemma init_tokens (modf t1wf tempf opath : string)
        (self : name_resource) :
  __init__ modf t1wf tempf opath = inr self ->
  token_of "sub-" modf (__sub__ self)
  /\ (forall s, __ses__ self = Some s -> token_of "ses-" modf s)
  /\ (forall s, __run__ self = Some s -> token_of "run-" modf s)
  /\ (forall s, __res__ self = Some s -> token_of "res-" tempf s).
Proof.
  intro I. destruct (init_inv _ _ _ _ _ I) as [m E].
  destruct (init_some modf t1wf tempf opath m E)
    as (self' & I' & Sub & Ses & Run & Res & _).
  rewrite I in I'. injection I' as <-.
  rewrite Sub, Ses, Run, Res.
  split; [apply search_token, E|].
  split; [|split]; intros s H;
    match type of H with
    | group_if_matched ?r = _ =>
        destruct r as [n|] eqn:F; [|discriminate];
        injection H as <-; apply search_token, F
    end.
Qed.

(** Whenever the constructor returns, the subject field is a token of
    the modality file name: [sub-] and a text without underscore and
    without line end, followed by an underscore in the name.  The same
    holds for each of the session, run and resolution fields that is
    not [None] (the resolution is a token of the template file name). *)
Theorem fields_are_tokens (modf t1wf tempf opath : string)
        (self : name_resource) :
  __init__ modf t1wf tempf opath = inr self ->
  token_of "sub-" modf (__sub__ self)
  /\ (forall s, __ses__ self = Some s -> token_of "ses-" modf s)
  /\ (forall s, __run__ self = Some s -> token_of "run-" modf s)
  /\ (forall s, __res__ self = Some s -> token_of "res-" tempf s).
Proof. exact (init_tokens modf t1wf tempf opath self). Qed.

Lemma fields_are_tokens_witness :
  token_of "sub-" "/data/sub-01_bold.nii.gz" (__sub__ example_namer)
  /\ (forall s, __ses__ example_namer = Some s ->
      token_of "ses-" "/data/sub-01_bold.nii.gz" s)
  /\ (forall s, __run__ example_namer = Some s ->
      token_of "run-" "/data/sub-01_bold.nii.gz" s)
  /\ (forall s, __res__ example_namer = Some s ->
      token_of "res-" "/atlas/MNI152_res-2mm_T1w.nii.gz" s).
Proof.
  apply (fields_are_tokens "/data/sub-01_bold.nii.gz"
           "/data/sub-01_T1w.nii.gz" "/atlas/MNI152_res-2mm_T1w.nii.gz"
           "/out" example_namer).
  reflexivity.
Defined.

(** When the session pattern finds a session, the session field holds
    it and the output directory is the join of the base output path,
    the subject and the session. *)
Theorem outdir_with_session (modf t1wf tempf opath : string)
        (m n : re.match_object) :
  re.search (token_pattern "sub-") modf = Some m ->
  re.search (token_pattern "ses-") modf = Some n ->
  exists self,
    __init__ modf t1wf tempf opath = inr self
    /\ __sub__ self = re.group m
    /\ __ses__ self = Some (re.group n)
    /\ os_path.join [opath; re.group m; re.group n] = inr (get_outdir self).
Proof.
  intros E F.
  destruct (init_some modf t1wf tempf opath m E)
    as (self & I & Sub & Ses & _ & _ & _ & Out & _).
  exists self. rewrite F in Ses. cbn [group_if_matched] in Ses.
  split; [exact I|]. split; [exact Sub|]. split; [exact Ses|].
  unfold get_outdir. rewrite Out, Ses, Sub.
  destruct (search_token _ _ _ F) as (_ & x & _ & _ & -> & _).
  reflexivity.
Qed.

Lemma outdir_with_session_witness :
  exists self,
    __init__ "/data/sub-01_ses-2_task-rest_bold.nii.gz"
      "/data/sub-01_ses-2_T1w.nii.gz" "/atlas/MNI152_res-2mm_T1w.nii.gz"
      "/out" = inr self
    /\ __sub__ self = "sub-01"
    /\ __ses__ self = Some "ses-2"
    /\ os_path.join ["/out"; "sub-01"; "ses-2"] = inr (get_outdir self).
Proof.
  apply (outdir_with_session "/data/sub-01_ses-2_task-rest_bold.nii.gz"
           "/data/sub-01_ses-2_T1w.nii.gz" "/atlas/MNI152_res-2mm_T1w.nii.gz"
           "/out" {| re.group := "sub-01" |} {| re.group := "ses-2" |});
    reflexivity.
Defined.

(** When the template file name has a resolution token, the template
    space repeats the key: the field already starts with [res-], and
    the format adds [res-] in front of it. *)
Theorem template_space_repeats_res (modf t1wf tempf opath : string)
        (self : name_resource) (s : string) :
  __init__ modf t1wf tempf opath = inr self ->
  __res__ self = Some s ->
  exists x,
    s = "res-" ++ x
    /\ get_template_space self
       = "space-" ++ __space__ self ++ "_res-res-" ++ x.
Proof.
  intros I R.
  destruct (init_tokens _ _ _ _ _ I) as (_ & _ & _ & T).
  destruct (T s R) as (_ & x & _ & _ & -> & _).
  exists x. split; [reflexivity|].
  unfold get_template_space. rewrite R. reflexivity.
Qed.

Lemma template_space_repeats_res_witness :
  exists x,
    "res-2mm" = "res-" ++ x
    /\ get_template_space example_namer
       = "space-" ++ __space__ example_namer ++ "_res-res-" ++ x.
Proof.
  apply (template_space_repeats_res "/data/sub-01_bold.nii.gz"
           "/data/sub-01_T1w.nii.gz" "/atlas/MNI152_res-2mm_T1w.nii.gz"
           "/out" example_namer "res-2mm"); reflexivity.
Defined.

(** ** Paths and labels *)

Lemma before_first_free (sep : ascii -> bool) (c : ascii) (s : string) :
  (sep c = true \/ has_char c s = false) ->
  has_char c (before_first sep s) = false.
Proof.
  induction s as [|d s IH]; cbn [before_first has_char]; intro H;
    [reflexivity|].
  destruct (sep d) eqn:Sd; [reflexivity|]. cbn [has_char].
  destruct (Ascii.eqb c d) eqn:E.
  - apply Ascii.eqb_eq in E. subst d.
    destruct H as [H|H]; [congruence | discriminate].
  - apply IH. destruct H as [H|H]; [left | right]; exact H.
Qed.

Lemma basename_no_slash (p : string) : has_char "/" (os_path.basename p) = false.
Proof.
  induction p as [|c p IH]; cbn [os_path.basename]; [reflexivity|].
  destruct (has_char "/" p) eqn:H; [exact IH|].
  destruct (Ascii.eqb_spec c "/") as [->|N]; [exact H|].
  cbn [has_char]. destruct (Ascii.eqb_spec "/" c) as [E|_];
    [symmetry in E; contradiction | exact H].
Qed.

(** The name that [get_label] gives is "label-" and a text without
    dot, underscore and slash: a label name is one path component and
    one token. *)
Theorem get_label_is_one_token (label : string) :
  exists x,
    get_label label = "label-" ++ x
    /\ has_char "." x = false
    /\ has_char "_" x = false
    /\ has_char "/" x = false.
Proof.
  exists (before_first is_dot_or_underscore (os_path.basename label)).
  split; [apply get_label_eq|].
  split; [apply before_first_free; left; reflexivity|].
  split; [apply before_first_free; left; reflexivity|].
  apply before_first_free. right. apply basename_no_slash.
Qed.

Lemma basename_after_slash (a d : string) :
  has_char "/" d = false -> os_path.basename (a ++ String "/" d) = d.
Proof.
  intro H. induction a as [|c a IH]; cbn [append os_path.basename].
  - rewrite H, Ascii.eqb_refl. reflexivity.
  - rewrite has_char_app. cbn [has_char]. rewrite Ascii.eqb_refl.
    rewrite orb_true_r. exact IH.
Qed.

Lemma endswith_char_inv (c : ascii) (s : string) :
  endswith_char c s = true -> exists a, s = a ++ String c "".
Proof.
  induction s as [|d s IH]; cbn [endswith_char]; [discriminate|].
  destruct s as [|e s].
  - intro H. apply Ascii.eqb_eq in H. subst d. exists "". reflexivity.
  - intro H. destruct (IH H) as [a ->]. exists (String d a). reflexivity.
Qed.

Lemma basename_plain (d : string) :
  has_char "/" d = false -> os_path.basename d = d.
Proof.
  destruct d as [|c d]; cbn [os_path.basename has_char]; [reflexivity|].
  destruct (Ascii.eqb_spec "/" c) as [|N]; [discriminate|].
  intros ->. destruct (Ascii.eqb_spec c "/") as [E|_];
    [symmetry in E; contradiction | reflexivity].
Qed.

(** The basename of a named derivative is the derivative: for a
    derivative name without slash, [name_derivative] puts it into the
    folder as the last component, whatever the folder is. *)
Theorem name_derivative_basename (folder derivative : string) :
  has_char "/" derivative = false ->
  exists p,
    name_derivative (Leaf folder) derivative = inr p
    /\ os_path.basename p = derivative.
Proof.
  intro H. unfold name_derivative. cbn [bind ret os_path.join fold_left].
  eexists. split; [reflexivity|].
  unfold os_path.join2.
  assert (S : startswith "/" derivative = false).
  { destruct derivative as [|c d]; [reflexivity|].
    cbn [has_char] in H. unfold startswith. cbn [strip_prefix].
    destruct (Ascii.eqb "/" c); [discriminate | reflexivity]. }
  rewrite S.
  destruct (String.eqb_spec folder "") as [->|_]; cbn [orb].
  - apply basename_plain, H.
  - destruct (endswith_char "/" folder) eqn:E.
    + destruct (endswith_char_inv _ _ E) as [a ->].
      rewrite append_assoc. cbn [append]. apply basename_after_slash, H.
    + cbn [append]. apply basename_after_slash, H.
Qed.

Lemma name_derivative_basename_witness :
  exists p,
    name_derivative (Leaf "/out/sub-01/func/preproc")
      "sub-01_bold_preproc.nii.gz" = inr p
    /\ os_path.basename p = "sub-01_bold_preproc.nii.gz".
Proof.
  apply (name_derivative_basename "/out/sub-01/func/preproc"
           "sub-01_bold_preproc.nii.gz").
  reflexivity.
Defined.

(** ** [merge_dicts] *)

(** A lookup in [merge_dicts(x, y)] gives the value of [y] where [y]
    has the key and that of [x] elsewhere ([y] a dictionary: its keys
    are distinct). *)
Theorem merge_dicts_lookup {V : Type} (x y : list (string * V)) (k : string) :
  NoDup (map fst y) ->
  dict_get k (merge_dicts x y)
  = match dict_get k y with
    | inr v => inr v
    | inl _ => dict_get k x
    end.
Proof.
  unfold merge_dicts, dict_update. cbv zeta. revert x.
  induction y as [|[k0 v0] y IH]; intros x U; cbn [fold_left fst snd].
  - reflexivity.
  - cbn [map fst] in U. inversion U as [|? ? N U']; subst.
    rewrite (IH _ U'). cbn [dict_get].
    destruct (String.eqb_spec k k0) as [->|Nk].
    + rewrite (dict_get_missing _ _ N). apply dict_get_set_same.
    + destruct (dict_get k y); [|reflexivity].
      apply dict_get_set_other. apply String.eqb_neq. exact Nk.
Qed.

Lemma merge_dicts_lookup_witness :
  dict_get "extensions"
    (merge_dicts [("modality", "func"); ("type", "bold")]
       [("extensions", "nii.gz|nii")])
  = match dict_get "extensions" [("extensions", "nii.gz|nii")] with
    | inr v => inr v
    | inl _ => dict_get "extensions" [("modality", "func"); ("type", "bold")]
    end.
Proof.
  apply (merge_dicts_lookup [("modality", "func"); ("type", "bold")]
           [("extensions", "nii.gz|nii")] "extensions").
  repeat constructor. cbn. intuition.
Defined.

(** ** [sweep_directory] *)

Lemma in_list_false (x : string) (l : list string) :
  in_list x l = false -> ~ In x l.
Proof.
  unfold in_list. induction l as [|y l IH]; cbn [existsb In]; [auto|].
  destruct (String.eqb_spec x y) as [->|N]; cbn [orb]; [discriminate|].
  intros H [E|I]; [congruence | exact (IH H I)].
Qed.

Lemma NoDup_snoc (x : string) (l : list string) :
  NoDup l -> ~ In x l -> NoDup (l ++ [x]).
Proof.
  intros U N. induction U as [|y l Ny U IH]; cbn [app].
  - constructor; [intros [] | constructor].
  - constructor.
    + intro H. apply in_app_or in H. destruct H as [H|[H|[]]].
      * exact (Ny H).
      * apply N. left. symmetry. exact H.
    + apply IH. intro H. apply N. right. exact H.
Qed.

Lemma add_funcs_aligned (modality anat0 : string) (files : list string)
      (st : sweep_lists) :
  String.eqb modality "dwi" = false ->
  aligned modality st -> aligned modality (add_funcs anat0 files st).
Proof.
  intro M. unfold add_funcs. revert st.
  induction files as [|f files IH]; intros st A; cbn [fold_left];
    [exact A|].
  apply IH. destruct (in_list f (funcs st)) eqn:E; [exact A|].
  destruct A as (Ud & Uf & Lb & Lv & La & Zd & Zf).
  unfold aligned. cbn [dwis funcs bvals bvecs anats].
  repeat split; try assumption.
  - apply NoDup_snoc; [exact Uf | apply in_list_false, E].
  - rewrite !List.length_app, La. cbn. lia.
  - intro H. congruence.
Qed.

Lemma add_dwis_aligned (modality anat0 : string)
      (files : list (string * string * string)) (st : sweep_lists) :
  String.eqb modality "dwi" = true ->
  aligned modality st -> aligned modality (add_dwis anat0 files st).
Proof.
  intro M. unfold add_dwis. revert st.
  induction files as [|[[dw bva] bve] files IH]; intros st A;
    cbn [fold_left]; [exact A|].
  apply IH. destruct (in_list dw (dwis st)) eqn:E; [exact A|].
  destruct A as (Ud & Uf & Lb & Lv & La & Zd & Zf).
  unfold aligned. cbn [dwis funcs bvals bvecs anats].
  repeat split; try assumption.
  - apply NoDup_snoc; [exact Ud | apply in_list_false, E].
  - rewrite !List.length_app, Lb. reflexivity.
  - rewrite !List.length_app, Lv. reflexivity.
  - rewrite !List.length_app, La. cbn. lia.
  - intro H. congruence.
Qed.

Lemma sweep_step_aligned (L : layout) (modality sub : string)
      (st st' : sweep_lists)
      (combo : option string * option string * option string) :
  aligned modality st ->
  sweep_step L modality sub st combo = inr st' ->
  aligned modality st'.
Proof.
  intros A. destruct combo as [[ses tas] ru]. unfold sweep_step.
  destruct (String.eqb modality "dwi") eqn:D.
  - destruct (get L (add_attributes _ [Some sub; ses] _)) as [|anat0 ?];
      [intro H; injection H as <-; exact A|].
    destruct (_ && _); intro H; injection H as <-; [|exact A].
    apply add_dwis_aligned; assumption.
  - destruct (String.eqb modality "func") eqn:F; [|discriminate].
    destruct (get L (add_attributes _ [Some sub; ses] _)) as [|anat0 ?];
      [intro H; injection H as <-; exact A|].
    destruct (nonempty _); intro H; injection H as <-; [|exact A].
    apply add_funcs_aligned; assumption.
Qed.

Lemma sweep_loop_aligned {A} (P : sweep_lists -> Prop)
      (body : sweep_lists -> A -> sweep_error + sweep_lists) (l : list A) :
  (forall st x st', P st -> body st x = inr st' -> P st') ->
  forall st st', P st -> sweep_loop body l st = inr st' -> P st'.
Proof.
  intro Hb. induction l as [|x l IH]; intros st st' Pst; cbn [sweep_loop].
  - intro H. injection H as <-. exact Pst.
  - destruct (body st x) as [e|st1] eqn:E; [discriminate|].
    apply IH. exact (Hb _ _ _ Pst E).
Qed.

Lemma sweep_loop_returns {A}
      (body : sweep_lists -> A -> sweep_error + sweep_lists) (l : list A) :
  (forall st x, exists st', body st x = inr st') ->
  forall st, exists st', sweep_loop body l st = inr st'.
Proof.
  intro Hb. induction l as [|x l IH]; intro st; cbn [sweep_loop].
  - eexists. reflexivity.
  - destruct (Hb st x) as [st1 ->]. apply IH.
Qed.

Lemma sweep_step_returns (L : layout) (modality sub : string)
      (st : sweep_lists)
      (combo : option string * option string * option string) :
  String.eqb modality "dwi" || String.eqb modality "func" = true ->
  exists st', sweep_step L modality sub st combo = inr st'.
Proof.
  intro M. destruct combo as [[ses tas] ru]. unfold sweep_step.
  destruct (String.eqb modality "dwi") eqn:D.
  - destruct (get L (add_attributes _ [Some sub; ses] _));
      [|destruct (_ && _)]; eexists; reflexivity.
  - cbn [orb] in M. rewrite M.
    destruct (get L (add_attributes _ [Some sub; ses] _));
      [|destruct (nonempty _)]; eexists; reflexivity.
Qed.

Lemma sweep_lists_aligned (L : layout)
      (subj sesh task run : option item_or_list) (modality : string) :
  String.eqb modality "dwi" || String.eqb modality "func" = true ->
  exists st,
    sweep_loop (sweep_subject L sesh task run modality)
      (subjects_of L subj)
      {| dwis := []; bvals := []; bvecs := []; funcs := []; anats := [] |}
    = inr st
    /\ aligned modality st.
Proof.
  intro M.
  destruct (sweep_loop_returns (sweep_subject L sesh task run modality)
              (subjects_of L subj)) with
    (st := {| dwis := []; bvals := []; bvecs := []; funcs := [];
              anats := [] |}) as [st E].
  { intros st sub. unfold sweep_subject. apply sweep_loop_returns.
    intros st0 combo. apply sweep_step_returns, M. }
  exists st. split; [exact E|].
  refine (sweep_loop_aligned (aligned modality) _ _ _ _ _ _ E).
  - intros st0 sub st1 A. unfold sweep_subject.
    apply (sweep_loop_aligned (aligned modality)); [|exact A].
    intros st2 combo st3. apply sweep_step_aligned.
  - unfold aligned. cbn. repeat split; try constructor.
Qed.

(** For the modality [func], [sweep_directory] returns two lists of the
    same length, and no functional image occurs twice in the first. *)
Theorem sweep_func_aligned (L : layout)
        (subj sesh task run : option item_or_list) :
  exists fs ans,
    sweep_directory L subj sesh task run "func" = inr (FuncInputs fs ans)
    /\ List.length fs = List.length ans
    /\ NoDup fs.
Proof.
  destruct (sweep_lists_aligned L subj sesh task run "func" eq_refl)
    as (st & E & A).
  exists (funcs st), (anats st). unfold sweep_directory. cbv zeta.
  fold (subjects_of L subj). rewrite E. split; [reflexivity|].
  destruct A as (_ & Uf & _ & _ & La & Zd & _).
  rewrite La, (Zd eq_refl). split; [reflexivity | exact Uf].
Qed.

(** For the modality [dwi], [sweep_directory] returns four lists of the
    same length, and no diffusion image occurs twice in the first. *)
Theorem sweep_dwi_aligned (L : layout)
        (subj sesh task run : option item_or_list) :
  exists ds bva bve ans,
    sweep_directory L subj sesh task run "dwi"
    = inr (DwiInputs ds bva bve ans)
    /\ List.length bva = List.length ds
    /\ List.length bve = List.length ds
    /\ List.length ans = List.length ds
    /\ NoDup ds.
Proof.
  destruct (sweep_lists_aligned L subj sesh task run "dwi" eq_refl)
    as (st & E & A).
  exists (dwis st), (bvals st), (bvecs st), (anats st).
  unfold sweep_directory. cbv zeta.
  fold (subjects_of L subj). rewrite E. split; [reflexivity|].
  destruct A as (Ud & _ & Lb & Lv & La & _ & Zf).
  rewrite La, (Zf eq_refl). cbn. repeat split; try assumption. lia.
Qed.

Lemma choices_nonempty (given : option item_or_list) (of_layout : list string) :
  choices given of_layout <> [].
Proof.
  unfold choices. destruct given as [[s|l]|]; cbn [not_given as_list].
  - destruct (String.eqb s ""); [|discriminate].
    intro H. apply app_eq_nil in H. destruct H; discriminate.
  - destruct l; [|discriminate].
    intro H. apply app_eq_nil in H. destruct H; discriminate.
  - intro H. apply app_eq_nil in H. destruct H; discriminate.
Qed.

Lemma product3_nonempty {A} (xs ys zs : list A) :
  xs <> [] -> ys <> [] -> zs <> [] -> product3 xs ys zs <> [].
Proof.
  destruct xs as [|x xs]; [contradiction|].
  destruct ys as [|y ys]; [contradiction|].
  destruct zs as [|z zs]; [contradiction|].
  discriminate.
Qed.

(** For a modality other than [dwi] and [func], [sweep_directory] never
    returns: with at least one subject it raises UnboundLocalError at
    the first query, since [type_img] is assigned for the two known
    modalities only, and the ValueError that names the wrong modality
    is reached only when there is no subject at all. *)
Theorem sweep_other_modality (L : layout)
        (subj sesh task run : option item_or_list) (modality : string) :
  modality <> "dwi" -> modality <> "func" ->
  sweep_directory L subj sesh task run modality
  = match subjects_of L subj with
    | [] => inl (ValueError incorrect_modality)
    | _ :: _ => inl (UnboundLocalError "type_img")
    end.
Proof.
  intros D F. apply String.eqb_neq in D, F.
  unfold sweep_directory. cbv zeta. fold (subjects_of L subj).
  destruct (subjects_of L subj) as [|sub subs]; cbn [sweep_loop].
  - rewrite D, F. reflexivity.
  - unfold sweep_subject at 1.
    destruct (product3 (choices sesh (get_sessions L sub))
                (choices task (get_tasks L sub))
                (choices run (get_runs L sub))) as [|[[ses tas] ru] rest] eqn:P.
    + exfalso. revert P. apply product3_nonempty; apply choices_nonempty.
    + cbn [sweep_loop]. unfold sweep_step. rewrite D, F. reflexivity.
Qed.

Lemma sweep_other_modality_witness :
  sweep_directory example_layout None None None None "anat"
  = inl (UnboundLocalError "type_img").
Proof.
  apply (sweep_other_modality example_layout None None None None "anat");
    discriminate.
Defined.

Example sweep_func_example :
  sweep_directory example_layout None None None None "func"
  = inr (FuncInputs ["sub-01_task-rest_bold.nii.gz"] ["sub-01_T1w.nii.gz"]).
Proof. reflexivity. Qed.

(** ** A file name without subject token *)

(** For a functional image whose name has no [sub-] with an underscore
    after it, the pipeline function makes no directory and runs no
    stage: the constructor raises AttributeError before anything else
    happens, and the one event is the printed traceback. *)
Theorem pipeline_without_subject (w : world)
        (func t1w atlas atlas_brain atlas_mask lv_mask : string)
        (labels : labels_arg) (outdir : string)
        (clean : bool) (stc : option string) (fmt : string)
        (tr : list event) :
  followed_by_underscore "sub-" func = false ->
  ndmg_func_pipeline w func t1w atlas atlas_brain atlas_mask lv_mask
    labels outdir clean stc fmt tr
  = ((tr ++ [Printed (format_exc no_group)])%list, inr tt).
Proof.
  intro F.
  assert (W : ndmg_func_worker w func t1w atlas atlas_brain atlas_mask
                lv_mask labels outdir clean stc fmt tr
              = (tr, inl no_group)).
  { unfold ndmg_func_worker, stages. unfold mbind at 1. unfold mbind at 1.
    unfold lift at 1.
    rewrite (init_none func t1w atlas outdir (search_none _ _ F)).
    reflexivity. }
  unfold ndmg_func_pipeline. rewrite W. reflexivity.
Qed.

Lemma pipeline_without_subject_witness :
  ndmg_func_pipeline quiet_world "/data/func/task-rest_bold.nii.gz"
    "/data/anat/T1w.nii.gz" "/atlas/MNI152_res-2mm_T1w.nii.gz"
    "/atlas/MNI152_res-2mm_brain.nii.gz" "/atlas/MNI152_res-2mm_mask.nii.gz"
    "/atlas/lv_mask.nii.gz" (LabelList ["/atlas/desikan.nii.gz"]) "/out"
    false None "gpickle" []
  = (([] ++ [Printed (format_exc no_group)])%list, inr tt).
Proof.
  apply (pipeline_without_subject quiet_world
           "/data/func/task-rest_bold.nii.gz"
           "/data/anat/T1w.nii.gz" "/atlas/MNI152_res-2mm_T1w.nii.gz"
           "/atlas/MNI152_res-2mm_brain.nii.gz"
           "/atlas/MNI152_res-2mm_mask.nii.gz"
           "/atlas/lv_mask.nii.gz" (LabelList ["/atlas/desikan.nii.gz"])
           "/out" false None "gpickle" []).
  reflexivity.
Defined.

(** ** The files that [sweep_directory] returns come from the layout *)

Lemma anat_query_facts (sub : string) (ses : option string) :
  let q := add_attributes
             [("modality", "anat"); ("type", "T1w");
              ("extensions", "nii.gz|nii")]
             [Some sub; ses] ["subject"; "session"] in
  dict_get "modality" q = inr "anat"
  /\ dict_get "type" q = inr "T1w"
  /\ dict_get "extensions" q = inr "nii.gz|nii"
  /\ (sub <> "" -> dict_get "subject" q = inr sub).
Proof.
  cbv zeta. unfold add_attributes. destruct ses as [s|];
    cbn [combine fold_left truthy format_opt];
    destruct (String.eqb sub "") eqn:E;
    repeat match goal with
           | |- context [String.eqb ?x ""] => destruct (String.eqb x "")
           end;
    cbn; repeat split; try reflexivity; intro N;
    try reflexivity; apply String.eqb_eq in E; contradiction.
Qed.

Lemma mod_query_facts (modality type_img ext sub : string)
      (ses tas ru : option string) :
  let q := merge_dicts
             (add_attributes
                (dict_set "type" type_img [("modality", modality)])
                [Some sub; ses; tas; ru]
                ["subject"; "session"; "task"; "run"])
             [("extensions", ext)] in
  dict_get "modality" q = inr modality
  /\ dict_get "type" q = inr type_img
  /\ dict_get "extensions" q = inr ext
  /\ (sub <> "" -> dict_get "subject" q = inr sub).
Proof.
  cbv zeta. unfold merge_dicts, dict_update, add_attributes.
  destruct ses as [s|]; destruct tas as [t|]; destruct ru as [r|];
    cbn [combine fold_left truthy format_opt fst snd];
    destruct (String.eqb sub "") eqn:E;
    repeat match goal with
           | |- context [String.eqb ?x ""] => destruct (String.eqb x "")
           end;
    cbn; repeat split; try reflexivity; intro N;
    try reflexivity; apply String.eqb_eq in E; contradiction.
Qed.

Lemma add_dwis_from_layout (L : layout) (subs : list string) (anat0 : string)
      (files : list (string * string * string)) (st : sweep_lists) :
  queried L subs "anat" "T1w" "nii.gz|nii" anat0 ->
  (forall dw bva bve, In (dw, bva, bve) files ->
     queried L subs "dwi" "dwi" "nii.gz|nii" dw
     /\ queried L subs "dwi" "dwi" "bval" bva
     /\ queried L subs "dwi" "dwi" "bvec" bve) ->
  from_layout L subs st -> from_layout L subs (add_dwis anat0 files st).
Proof.
  intro Ha. unfold add_dwis. revert st.
  induction files as [|[[dw bva] bve] files IH]; intros st Hf S;
    cbn [fold_left]; [exact S|].
  apply IH; [intros; apply Hf; right; assumption|].
  destruct (in_list dw (dwis st)); [exact S|].
  destruct S as (S1 & S2 & S3 & S4 & S5).
  destruct (Hf dw bva bve (or_introl eq_refl)) as (Q1 & Q2 & Q3).
  unfold from_layout. cbn [dwis bvals bvecs funcs anats].
  split; [|split; [|split; [|split]]]; try assumption;
    apply Forall_app; split; try assumption; constructor; auto.
Qed.

Lemma add_funcs_from_layout (L : layout) (subs : list string) (anat0 : string)
      (files : list string) (st : sweep_lists) :
  queried L subs "anat" "T1w" "nii.gz|nii" anat0 ->
  (forall fn, In fn files -> queried L subs "func" "bold" "nii.gz|nii" fn) ->
  from_layout L subs st -> from_layout L subs (add_funcs anat0 files st).
Proof.
  intro Ha. unfold add_funcs. revert st.
  induction files as [|fn files IH]; intros st Hf S;
    cbn [fold_left]; [exact S|].
  apply IH; [intros; apply Hf; right; assumption|].
  destruct (in_list fn (funcs st)); [exact S|].
  destruct S as (S1 & S2 & S3 & S4 & S5).
  pose proof (Hf fn (or_introl eq_refl)) as Q.
  unfold from_layout. cbn [dwis bvals bvecs funcs anats].
  split; [|split; [|split; [|split]]]; try assumption;
    apply Forall_app; split; try assumption; constructor; auto.
Qed.

Lemma sweep_step_from_layout (L : layout) (subs : list string)
      (modality sub : string) (st st' : sweep_lists)
      (combo : option string * option string * option string) :
  In sub subs ->
  from_layout L subs st ->
  sweep_step L modality sub st combo = inr st' ->
  from_layout L subs st'.
Proof.
  intros I S. destruct combo as [[ses tas] ru]. unfold sweep_step. cbv zeta.
  pose proof (anat_query_facts sub ses) as AQ. cbv zeta in AQ.
  destruct (String.eqb modality "dwi") eqn:D.
  - apply String.eqb_eq in D. subst modality.
    pose proof (mod_query_facts "dwi" "dwi" "nii.gz|nii" sub ses tas ru) as Q1.
    pose proof (mod_query_facts "dwi" "dwi" "bval" sub ses tas ru) as Q2.
    pose proof (mod_query_facts "dwi" "dwi" "bvec" sub ses tas ru) as Q3.
    cbv zeta in Q1, Q2, Q3.
    destruct (get L (add_attributes _ [Some sub; ses] _)) as [|anat0 rest]
      eqn:EA; [intro H; injection H as <-; exact S|].
    destruct (_ && _); intro H; injection H as <-; [|exact S].
    apply add_dwis_from_layout; [| |exact S].
    + eexists _, sub. split; [rewrite EA; left; reflexivity|].
      split; [exact I | exact AQ].
    + intros dw bva bve Hin.
      pose proof (in_combine_r _ _ _ _ Hin) as H3.
      apply in_combine_l in Hin.
      pose proof (in_combine_r _ _ _ _ Hin) as H2.
      apply in_combine_l in Hin.
      split; [|split]; eexists _, sub;
        (split; [eassumption|]); (split; [exact I|]); assumption.
  - destruct (String.eqb modality "func") eqn:F; [|discriminate].
    apply String.eqb_eq in F. subst modality.
    pose proof (mod_query_facts "func" "bold" "nii.gz|nii" sub ses tas ru)
      as Q1.
    cbv zeta in Q1.
    destruct (get L (add_attributes _ [Some sub; ses] _)) as [|anat0 rest]
      eqn:EA; [intro H; injection H as <-; exact S|].
    destruct (nonempty _); intro H; injection H as <-; [|exact S].
    apply add_funcs_from_layout; [| |exact S].
    + eexists _, sub. split; [rewrite EA; left; reflexivity|].
      split; [exact I | exact AQ].
    + intros fn Hin. eexists _, sub.
      split; [exact Hin|]. split; [exact I | exact Q1].
Qed.

Lemma sweep_loop_invariant_in {A} (P : sweep_lists -> Prop)
      (body : sweep_lists -> A -> sweep_error + sweep_lists) (l : list A) :
  (forall st x st', In x l -> P st -> body st x = inr st' -> P st') ->
  forall st st', P st -> sweep_loop body l st = inr st' -> P st'.
Proof.
  induction l as [|x l IH]; intros Hb st st' Pst; cbn [sweep_loop].
  - intro H. injection H as <-. exact Pst.
  - destruct (body st x) as [e|st1] eqn:E; [discriminate|].
    apply IH.
    + intros st0 y st2 Hy. apply Hb. right. exact Hy.
    + exact (Hb _ _ _ (or_introl eq_refl) Pst E).
Qed.

Lemma sweep_lists_from_layout (L : layout)
      (subj sesh task run : option item_or_list) (modality : string)
      (st : sweep_lists) :
  sweep_loop (sweep_subject L sesh task run modality) (subjects_of L subj)
    {| dwis := []; bvals := []; bvecs := []; funcs := []; anats := [] |}
  = inr st ->
  from_layout L (subjects_of L subj) st.
Proof.
  apply (sweep_loop_invariant_in (from_layout L (subjects_of L subj))).
  - intros st0 sub st1 I S0. unfold sweep_subject.
    apply (sweep_loop_invariant_in (from_layout L (subjects_of L subj)));
      [|exact S0].
    intros st2 combo st3 _. apply sweep_step_from_layout, I.
  - unfold from_layout. cbn. repeat split; constructor.
Qed.

(** For the modality [func], every functional image returned is a file
    that the layout gave for a query with the modality [func], the type
    [bold] and the extensions [nii.gz|nii], and every anatomical image
    one that it gave for a query with the modality [anat] and the type
    [T1w], each for one of the subjects swept: nothing is returned that
    the layout did not give. *)
Theorem sweep_func_from_layout (L : layout)
        (subj sesh task run : option item_or_list) (fs ans : list string) :
  sweep_directory L subj sesh task run "func" = inr (FuncInputs fs ans) ->
  Forall (queried L (subjects_of L subj) "func" "bold" "nii.gz|nii") fs
  /\ Forall (queried L (subjects_of L subj) "anat" "T1w" "nii.gz|nii") ans.
Proof.
  unfold sweep_directory. cbv zeta. fold (subjects_of L subj).
  destruct (sweep_loop _ (subjects_of L subj) _) as [e|st] eqn:E;
    [discriminate|].
  cbn. intro H. injection H as <- <-.
  destruct (sweep_lists_from_layout L subj sesh task run "func" st E)
    as (_ & _ & _ & Sf & Sa).
  split; assumption.
Qed.

Lemma sweep_func_from_layout_witness :
  Forall (queried example_layout (subjects_of example_layout None)
            "func" "bold" "nii.gz|nii")
    ["sub-01_task-rest_bold.nii.gz"]
  /\ Forall (queried example_layout (subjects_of example_layout None)
               "anat" "T1w" "nii.gz|nii")
       ["sub-01_T1w.nii.gz"].
Proof.
  apply (sweep_func_from_layout example_layout None None None None
           ["sub-01_task-rest_bold.nii.gz"] ["sub-01_T1w.nii.gz"]).
  reflexivity.
Defined.

(** For the modality [dwi], the diffusion images, b-values and
    b-vectors returned are files that the layout gave for a query with
    the modality and type [dwi] and the extensions [nii.gz|nii], [bval]
    and [bvec], and the anatomical images are files that it gave for a
    query with the modality [anat] and the type [T1w], each for one of
    the subjects swept. *)
Theorem sweep_dwi_from_layout (L : layout)
        (subj sesh task run : option item_or_list)
        (ds bva bve ans : list string) :
  sweep_directory L subj sesh task run "dwi"
  = inr (DwiInputs ds bva bve ans) ->
  Forall (queried L (subjects_of L subj) "dwi" "dwi" "nii.gz|nii") ds
  /\ Forall (queried L (subjects_of L subj) "dwi" "dwi" "bval") bva
  /\ Forall (queried L (subjects_of L subj) "dwi" "dwi" "bvec") bve
  /\ Forall (queried L (subjects_of L subj) "anat" "T1w" "nii.gz|nii") ans.
Proof.
  unfold sweep_directory. cbv zeta. fold (subjects_of L subj).
  destruct (sweep_loop _ (subjects_of L subj) _) as [e|st] eqn:E;
    [discriminate|].
  cbn. intro H. injection H as <- <- <- <-.
  destruct (sweep_lists_from_layout L subj sesh task run "dwi" st E)
    as (S1 & S2 & S3 & _ & Sa).
  repeat split; assumption.
Qed.

Lemma sweep_dwi_from_layout_witness :
  Forall (queried example_dwi_layout (subjects_of example_dwi_layout None)
            "dwi" "dwi" "nii.gz|nii")
    ["sub-01_dwi.nii.gz"]
  /\ Forall (queried example_dwi_layout (subjects_of example_dwi_layout None)
               "dwi" "dwi" "bval")
       ["sub-01_dwi.bval"]
  /\ Forall (queried example_dwi_layout (subjects_of example_dwi_layout None)
               "dwi" "dwi" "bvec")
       ["sub-01_dwi.bvec"]
  /\ Forall (queried example_dwi_layout (subjects_of example_dwi_layout None)
               "anat" "T1w" "nii.gz|nii")
       ["sub-01_T1w.nii.gz"].
Proof.
  apply (sweep_dwi_from_layout example_dwi_layout None None None None
           ["sub-01_dwi.nii.gz"] ["sub-01_dwi.bval"] ["sub-01_dwi.bvec"]
           ["sub-01_T1w.nii.gz"]).
  reflexivity.
Defined.
